(** * rtl-entropy, bladeRF front end: the sample-conditioning loop

    A shallow embedding of [src/brf_entropy.c]: the discard-bit ring buffer
    ([store_hash_data], lines 199-216) and the body of the sample loop of
    [main] (lines 402-470): von Neumann debiasing of the three bit pairs of a
    sample, the bit accumulator, the FIPS gate and the two output paths
    (AES under a key hashed from the discard pool, or XOR with the previous
    block).

    Globals of the C file become the fields of [state]; [fwrite] and
    [log_line] append to the [output] and [logged] fields.  The headers
    [defines.h], [fips.h], [util.h] and OpenSSL are not part of the file:
    what the loop takes from them is gathered in [Env].

    [main] as it stands prints a notice and exits at lines 268-269, and
    nothing in it fills [buffer] or sets [n_read]; the embedding is of the
    loop itself, with the sample batch as an argument. *)

From Stdlib Require Import ZArith Lia List Bool.
From stdpp Require Import base numbers list.
Import ListNotations.
Local Open Scope Z_scope.

(** ** Machine integers *)

(** [unsigned int] is 32 bits wide and [unsigned char] 8 bits wide. *)
Definition u32 (x : Z) : Z := x mod 2 ^ 32.
Definition u8 (x : Z) : Z := x mod 2 ^ 8.

(** [SHA512_DIGEST_LENGTH] of [openssl/sha.h]. *)
Definition SHA512_DIGEST_LENGTH : nat := 64.

(** ** Outcomes

    An access outside the declared extent of an array has no defined
    behaviour in C; the embedding stops there and reports the index. *)
Inductive fault : Type :=
| OutOfBounds (idx : Z)
| OutOfFuel.

Inductive result (A : Type) : Type :=
| Ok (a : A)
| Fault (f : fault).
Arguments Ok {A} a.
Arguments Fault {A} f.

Definition bind {A B : Type} (m : result A) (k : A -> result B) : result B :=
  match m with
  | Ok a => k a
  | Fault f => Fault f
  end.

Notation "x <-- m ;; k" := (bind m (fun x => k))
  (at level 100, m at next level, right associativity).

(** [a[i]] for an array declared with [size] elements. *)
Definition arr_read (size : nat) (a : list Z) (i : Z) : result Z :=
  if (0 <=? i) && (i <? Z.of_nat size)
  then Ok (a !!! Z.to_nat i)
  else Fault (OutOfBounds i).

(** ** What the loop takes from outside the file *)
Record Env : Type := mkEnv {
  (** [defines.h]: the size of [bitbuffer] and [bitbuffer_old]. *)
  BUFFER_SIZE : nat;
  (** [fips.h]: the context, its initial value after [fips_init], the test
      battery (it returns a bit mask of failed tests, 0 for a pass) and the
      table of masks, one per test name. *)
  fips_ctx_t : Type;
  fips_init : fips_ctx_t;
  fips_run_rng_test : fips_ctx_t -> list Z -> Z * fips_ctx_t;
  fips_test_mask : list Z;
  (** OpenSSL and [util.h]. *)
  SHA512 : list Z -> list Z;
  EVP_CIPHER_CTX : Type;
  aes_init : list Z -> EVP_CIPHER_CTX;
  aes_encrypt : EVP_CIPHER_CTX -> list Z -> list Z;
  (** Command line flags, fixed before the loop starts. *)
  gflags_encryption : Z;
  gflags_detach : Z
}.

Definition N_FIPS_TESTS (E : Env) : nat := length (fips_test_mask E).

(** ** Program state *)
Record state (E : Env) : Type := mkState {
  bitbuffer : list Z;
  bitbuffer_old : list Z;
  hash_buffer : list Z;
  hash_data_buffer : list Z;
  bitcounter : Z;
  buffercounter : Z;
  hash_data_counter : Z;
  hash_data_bit_counter : Z;
  hash_loop : Z;
  fipsctx : fips_ctx_t E;
  (** one entry per [fwrite] to [output], oldest first *)
  output : list (list Z);
  (** index into [fips_test_names] of every "Failed: ..." line logged *)
  logged : list nat;
  (** every block handed to [fips_run_rng_test], oldest first *)
  tested : list (list Z)
}.
Arguments mkState {E}.
Arguments bitbuffer {E} s.
Arguments bitbuffer_old {E} s.
Arguments hash_buffer {E} s.
Arguments hash_data_buffer {E} s.
Arguments bitcounter {E} s.
Arguments buffercounter {E} s.
Arguments hash_data_counter {E} s.
Arguments hash_data_bit_counter {E} s.
Arguments hash_loop {E} s.
Arguments fipsctx {E} s.
Arguments output {E} s.
Arguments logged {E} s.
Arguments tested {E} s.

Section Model.
Variable E : Env.
Abbreviation state := (state E).

Definition set_bitbuffer (v : list Z) (s : state) : state :=
  mkState v (bitbuffer_old s) (hash_buffer s) (hash_data_buffer s)
    (bitcounter s) (buffercounter s) (hash_data_counter s)
    (hash_data_bit_counter s) (hash_loop s) (fipsctx s) (output s)
    (logged s) (tested s).

Definition set_bitbuffer_old (v : list Z) (s : state) : state :=
  mkState (bitbuffer s) v (hash_buffer s) (hash_data_buffer s)
    (bitcounter s) (buffercounter s) (hash_data_counter s)
    (hash_data_bit_counter s) (hash_loop s) (fipsctx s) (output s)
    (logged s) (tested s).

Definition set_hash_buffer (v : list Z) (s : state) : state :=
  mkState (bitbuffer s) (bitbuffer_old s) v (hash_data_buffer s)
    (bitcounter s) (buffercounter s) (hash_data_counter s)
    (hash_data_bit_counter s) (hash_loop s) (fipsctx s) (output s)
    (logged s) (tested s).

Definition set_hash_data_buffer (v : list Z) (s : state) : state :=
  mkState (bitbuffer s) (bitbuffer_old s) (hash_buffer s) v
    (bitcounter s) (buffercounter s) (hash_data_counter s)
    (hash_data_bit_counter s) (hash_loop s) (fipsctx s) (output s)
    (logged s) (tested s).

Definition set_bitcounter (v : Z) (s : state) : state :=
  mkState (bitbuffer s) (bitbuffer_old s) (hash_buffer s)
    (hash_data_buffer s) v (buffercounter s) (hash_data_counter s)
    (hash_data_bit_counter s) (hash_loop s) (fipsctx s) (output s)
    (logged s) (tested s).

Definition set_buffercounter (v : Z) (s : state) : state :=
  mkState (bitbuffer s) (bitbuffer_old s) (hash_buffer s)
    (hash_data_buffer s) (bitcounter s) v (hash_data_counter s)
    (hash_data_bit_counter s) (hash_loop s) (fipsctx s) (output s)
    (logged s) (tested s).

Definition set_hash_data_counter (v : Z) (s : state) : state :=
  mkState (bitbuffer s) (bitbuffer_old s) (hash_buffer s)
    (hash_data_buffer s) (bitcounter s) (buffercounter s) v
    (hash_data_bit_counter s) (hash_loop s) (fipsctx s) (output s)
    (logged s) (tested s).

Definition set_hash_data_bit_counter (v : Z) (s : state) : state :=
  mkState (bitbuffer s) (bitbuffer_old s) (hash_buffer s)
    (hash_data_buffer s) (bitcounter s) (buffercounter s)
    (hash_data_counter s) v (hash_loop s) (fipsctx s) (output s)
    (logged s) (tested s).

Definition set_hash_loop (v : Z) (s : state) : state :=
  mkState (bitbuffer s) (bitbuffer_old s) (hash_buffer s)
    (hash_data_buffer s) (bitcounter s) (buffercounter s)
    (hash_data_counter s) (hash_data_bit_counter s) v (fipsctx s)
    (output s) (logged s) (tested s).

(** [fips_run_rng_test(&fipsctx, &bitbuffer)]: the context is updated in
    place and the block is remembered in [tested]. *)
Definition run_fips (s : state) : Z * state :=
  let r := fips_run_rng_test E (fipsctx s) (bitbuffer s) in
  (fst r,
   mkState (bitbuffer s) (bitbuffer_old s) (hash_buffer s)
     (hash_data_buffer s) (bitcounter s) (buffercounter s)
     (hash_data_counter s) (hash_data_bit_counter s) (hash_loop s)
     (snd r) (output s) (logged s) (tested s ++ [bitbuffer s])).

(** [fwrite(buf, 1, len, output)] *)
Definition fwrite (buf : list Z) (s : state) : state :=
  mkState (bitbuffer s) (bitbuffer_old s) (hash_buffer s)
    (hash_data_buffer s) (bitcounter s) (buffercounter s)
    (hash_data_counter s) (hash_data_bit_counter s) (hash_loop s)
    (fipsctx s) (output s ++ [buf]) (logged s) (tested s).

(** [log_line(LOG_DEBUG, "Failed: %s", fips_test_names[j])] *)
Definition log_failed (j : nat) (s : state) : state :=
  mkState (bitbuffer s) (bitbuffer_old s) (hash_buffer s)
    (hash_data_buffer s) (bitcounter s) (buffercounter s)
    (hash_data_counter s) (hash_data_bit_counter s) (hash_loop s)
    (fipsctx s) (output s) (logged s ++ [j]) (tested s).

(** The globals as the C file initialises them, after [fips_init]. *)
Definition init : state :=
  mkState (replicate (BUFFER_SIZE E) 0) (replicate (BUFFER_SIZE E) 0)
    (replicate SHA512_DIGEST_LENGTH 0) (replicate SHA512_DIGEST_LENGTH 0)
    0 0 0 0 0 (fips_init E) [] [] [].

(** *** [store_hash_data], lines 199-216 *)
Definition store_hash_data (bit : Z) (s : state) : result state :=
  old <-- arr_read SHA512_DIGEST_LENGTH (hash_data_buffer s)
            (hash_data_counter s) ;;
  let mask := Z.shiftl 1 (hash_data_bit_counter s) in
  let new := if bit =? 0 then Z.land old (Z.lnot mask) else Z.lor old mask in
  let s := set_hash_data_buffer
             (<[Z.to_nat (hash_data_counter s) := u8 new]>
                (hash_data_buffer s)) s in
  let s := set_hash_data_bit_counter (u32 (hash_data_bit_counter s + 1)) s in
  let s := if hash_data_bit_counter s =? 8
           then set_hash_data_counter (u32 (hash_data_counter s + 1))
                  (set_hash_data_bit_counter 0 s)
           else s in
  let s := if hash_data_counter s =? Z.of_nat SHA512_DIGEST_LENGTH
           then set_hash_loop 1 (set_hash_data_counter 0 s)
           else s in
  Ok s.

(** *** One bit pair, lines 406-418 *)
Definition debias (ch ch2 : Z) (s : state) : result state :=
  if negb (ch =? ch2) then
    s <-- (if negb (ch =? 0) then
             old <-- arr_read (BUFFER_SIZE E) (bitbuffer s)
                       (buffercounter s) ;;
             Ok (set_bitbuffer
                   (<[Z.to_nat (buffercounter s) :=
                        u8 (Z.lor old (Z.shiftl 1 (bitcounter s)))]>
                      (bitbuffer s)) s)
           else Ok s) ;;
    Ok (set_bitcounter (u32 (bitcounter s + 1)) s)
  else
    if negb (ch =? 0) then store_hash_data 1 s else store_hash_data 0 s.

(** *** "is byte full?", lines 421-424 *)
Definition byte_full (s : state) : state :=
  if 8 <=? bitcounter s
  then set_bitcounter 0 (set_buffercounter (u32 (buffercounter s + 1)) s)
  else s.

(** *** The XOR loop of lines 450-452; [n] iterations are left. *)
Fixpoint xor_old (n : nat) (s : state) : state :=
  match n with
  | O => s
  | S n' =>
      let i := Z.to_nat (buffercounter s) in
      let s := set_bitbuffer
                 (<[i := Z.lxor (bitbuffer s !!! i) (bitbuffer_old s !!! i)]>
                    (bitbuffer s)) s in
      xor_old n' (set_buffercounter (u32 (buffercounter s + 1)) s)
  end.

(** *** The report loop of lines 458-463, from test number [j] on. *)
Fixpoint report_failed (masks : list Z) (j : nat) (fips_result : Z)
    (s : state) : state :=
  match masks with
  | [] => s
  | m :: masks' =>
      let s := if negb (Z.land fips_result m =? 0)
               then (if gflags_detach E =? 0 then log_failed j s else s)
               else s in
      report_failed masks' (S j) fips_result s
  end.

(** *** "is buffer full?" taken: lines 430-468.

    The report loop runs on [j], the counter of the bit-pair loop around
    it, and leaves it at [N_FIPS_TESTS]; the other paths do not touch it.
    The function returns the new [j] with the new state. *)
Definition full_block (j : Z) (s : state) : Z * state :=
  let (fips_result, s) := run_fips s in
  let (j, s) :=
    if fips_result =? 0 then
      if negb (gflags_encryption E =? 0) then
        if negb (hash_loop s =? 0) then
          let s := set_hash_buffer (SHA512 E (hash_data_buffer s)) s in
          let en := aes_init E (hash_buffer s) in
          let ciphertext := aes_encrypt E en (bitbuffer s) in
          (j, fwrite ciphertext s)
        else (j, s)
      else
        let s := xor_old (BUFFER_SIZE E) (set_buffercounter 0 s) in
        let s := fwrite (bitbuffer_old s) s in
        (j, set_bitbuffer_old (bitbuffer s) s)
    else
      (Z.of_nat (N_FIPS_TESTS E),
       report_failed (fips_test_mask E) 0 fips_result s) in
  (j, set_buffercounter 0
        (set_bitbuffer (replicate (BUFFER_SIZE E) 0) s)).

(** *** The body of the bit-pair loop, lines 404-469 *)
Definition window (b j : Z) (s : state) : result (Z * state) :=
  let ch := Z.land (Z.shiftr b j) 1 in
  let ch2 := Z.land (Z.shiftr b (j + 1)) 1 in
  s <-- debias ch ch2 s ;;
  let s := byte_full s in
  if Z.of_nat (BUFFER_SIZE E) <? buffercounter s
  then Ok (full_block j s)
  else Ok (j, s).

(** *** [for (j = 0; j < 6; j += 2)], line 403.

    The loop test comes first, so fuel only runs out when an iteration is
    still due. *)
Fixpoint window_loop (fuel : nat) (b j : Z) (s : state) : result state :=
  if 6 <=? j then Ok s
  else match fuel with
       | O => Fault OutOfFuel
       | S fuel' =>
           r <-- window b j s ;;
           window_loop fuel' b (u32 (fst r + 2)) (snd r)
       end.

(** One sample.  Six iterations always suffice ([window_loop_fuel]). *)
Definition process_sample (b : Z) (s : state) : result state :=
  window_loop 6 b 0 s.

(** *** [for (i = 0; i < n_read; i++)], line 402, over the sample batch. *)
Fixpoint process_samples (buffer : list Z) (s : state) : result state :=
  match buffer with
  | [] => Ok s
  | b :: buffer' => s <-- process_sample b s ;; process_samples buffer' s
  end.

(** A run of discarded bits, for statements about the pool alone. *)
Fixpoint store_bits (bits : list Z) (s : state) : result state :=
  match bits with
  | [] => Ok s
  | bit :: bits' => s <-- store_hash_data bit s ;; store_bits bits' s
  end.

End Model.

Arguments init E : clear implicits.
Arguments set_bitbuffer {E} v s.
Arguments set_bitbuffer_old {E} v s.
Arguments set_hash_buffer {E} v s.
Arguments set_hash_data_buffer {E} v s.
Arguments set_bitcounter {E} v s.
Arguments set_buffercounter {E} v s.
Arguments set_hash_data_counter {E} v s.
Arguments set_hash_data_bit_counter {E} v s.
Arguments set_hash_loop {E} v s.
Arguments run_fips {E} s.
Arguments fwrite {E} buf s.
Arguments log_failed {E} j s.
Arguments store_hash_data {E} bit s.
Arguments debias {E} ch ch2 s.
Arguments byte_full {E} s.
Arguments xor_old {E} n s.
Arguments report_failed {E} masks j fips_result s.
Arguments full_block {E} j s.
Arguments window {E} b j s.
Arguments window_loop {E} fuel b j s.
Arguments process_sample {E} b s.
Arguments process_samples {E} buffer s.
Arguments store_bits {E} bits s.

(** ** Well-formed states *)

(** The array is declared with [BUFFER_SIZE] elements; the byte cursor may
    stand one past its end, the bit cursor is inside a byte. *)
Definition acc_ok {E : Env} (s : state E) : Prop :=
  length (bitbuffer s) = BUFFER_SIZE E /\
  0 <= bitcounter s < 8 /\
  0 <= buffercounter s <= Z.of_nat (BUFFER_SIZE E).

(** The ring buffer has [SHA512_DIGEST_LENGTH] bytes and both cursors are
    inside it. *)
Definition pool_ok {E : Env} (s : state E) : Prop :=
  length (hash_data_buffer s) = SHA512_DIGEST_LENGTH /\
  0 <= hash_data_counter s < Z.of_nat SHA512_DIGEST_LENGTH /\
  0 <= hash_data_bit_counter s < 8.

(** [BUFFER_SIZE + 1] fits an [unsigned int]. *)
Definition env_ok (E : Env) : Prop :=
  Z.of_nat (BUFFER_SIZE E) + 1 < 2 ^ 32.

(** Every bit of the accumulator at or after the write cursor is clear. *)
Definition zero_beyond {E : Env} (s : state E) : Prop :=
  forall (i : nat) (k : Z),
    (i < BUFFER_SIZE E)%nat -> 0 <= k < 8 ->
    buffercounter s < Z.of_nat i \/
      (buffercounter s = Z.of_nat i /\ bitcounter s <= k) ->
    Z.testbit (bitbuffer s !!! i) k = false.

(** The bits a bit pair [(ch, ch2)] at position [j] of sample [b] is made of. *)
Definition pair_lo (b j : Z) : Z := Z.land (Z.shiftr b j) 1.
Definition pair_hi (b j : Z) : Z := Z.land (Z.shiftr b (j + 1)) 1.

(** The tests named by a verdict, as the report loop walks them. *)
Fixpoint failed_tests (masks : list Z) (j : nat) (fips_result : Z) : list nat :=
  match masks with
  | [] => []
  | m :: masks' =>
      (if negb (Z.land fips_result m =? 0) then [j] else [])
        ++ failed_tests masks' (S j) fips_result
  end.

(** Bytewise XOR of two blocks. *)
Definition xor_block (a b : list Z) : list Z := zip_with Z.lxor a b.

(** ** Environments to run the loop in

    The block size is the one the comment at line 428 names; the five FIPS
    masks are those of the usual battery.  The digest and cipher stand-ins
    are only there so that runs can be evaluated. *)
Definition demo_digest (pool : list Z) : list Z := pool.

Definition demo_cipher (key : list Z) (block : list Z) : list Z :=
  map (Z.lxor (hd 0 key + 1)) block.

(** A battery that rejects the all-zero block (test 0) and nothing else. *)
Definition zero_block_fails (ctx : unit) (block : list Z) : Z * unit :=
  (if forallb (Z.eqb 0) block then 1 else 0, ctx).

Definition always_pass (ctx : unit) (block : list Z) : Z * unit := (0, ctx).

Definition demo_env (size : nat) (battery : unit -> list Z -> Z * unit)
    (encryption detach : Z) : Env :=
  mkEnv size unit tt battery [1; 2; 4; 8; 16]
    demo_digest (list Z) (fun key => key) demo_cipher encryption detach.

(** Whitening and encrypted mode with a battery that passes every block;
    whitening mode with one that rejects the all-zero block, attached to a
    terminal and detached. *)
Definition rtl_whiten : Env := demo_env 2500 always_pass 0 0.
Definition rtl_encrypt : Env := demo_env 2500 always_pass 1 0.
Definition rtl_strict : Env := demo_env 2500 zero_block_fails 0 0.
Definition rtl_detached : Env := demo_env 2500 zero_block_fails 0 1.

(** A two-byte accumulator, for runs short enough to evaluate in full. *)
Definition small_env (encryption : Z) : Env :=
  demo_env 2 always_pass encryption 0.

(** The state [s] with the accumulator cursor placed on bit number [c],
    counted from the start of the block. *)
Definition advance {E : Env} (c : Z) (s : state E) : state E :=
  set_bitcounter (c mod 8) (set_buffercounter (c / 8) s).

(** The pool fields of two states agree. *)
Definition same_pool {E : Env} (s s' : state E) : Prop :=
  hash_data_buffer s' = hash_data_buffer s /\
  hash_data_counter s' = hash_data_counter s /\
  hash_data_bit_counter s' = hash_data_bit_counter s /\
  hash_loop s' = hash_loop s.

(** ** Bit views of the two buffers

    Bit number [p] of a buffer is bit [p mod 8] of byte [p / 8]: the order
    in which both cursors walk their buffer. *)
Definition pool_bit {E : Env} (s : state E) (p : Z) : bool :=
  Z.testbit (hash_data_buffer s !!! Z.to_nat (p / 8)) (p mod 8).

Definition pool_cursor {E : Env} (s : state E) : Z :=
  8 * hash_data_counter s + hash_data_bit_counter s.

Definition acc_bit {E : Env} (s : state E) (k : Z) : bool :=
  Z.testbit (bitbuffer s !!! Z.to_nat (k / 8)) (k mod 8).

Definition acc_cursor {E : Env} (s : state E) : Z :=
  8 * buffercounter s + bitcounter s.

(** ** Von Neumann debiasing, as a function of the samples

    The three bit pairs of a sample in the order the loop reads them, and
    what a pair contributes: its lower bit to the debiased stream when the
    two bits differ, its common bit to the discard stream when they are
    equal. *)
Definition pairs_of (b : Z) : list (Z * Z) :=
  [(pair_lo b 0, pair_hi b 0); (pair_lo b 2, pair_hi b 2);
   (pair_lo b 4, pair_hi b 4)].

Definition emitted_of_pair (p : Z * Z) : list Z :=
  if fst p =? snd p then [] else [fst p].

Definition discarded_of_pair (p : Z * Z) : list Z :=
  if fst p =? snd p then [fst p] else [].

Definition debiased (samples : list Z) : list Z :=
  flat_map emitted_of_pair (flat_map pairs_of samples).

Definition discards (samples : list Z) : list Z :=
  flat_map discarded_of_pair (flat_map pairs_of samples).

(** [s'] is [s] after the bits [em] were appended to the accumulator and
    the bits [di] stored in the pool, with no block completed. *)
Definition extends {E : Env} (s s' : state E) (em di : list Z) : Prop :=
  acc_ok s' /\ zero_beyond s' /\ pool_ok s' /\
  acc_cursor s' = acc_cursor s + Z.of_nat (length em) /\
  (forall k, 0 <= k < acc_cursor s -> acc_bit s' k = acc_bit s k) /\
  (forall i : nat, (i < length em)%nat ->
     acc_bit s' (acc_cursor s + Z.of_nat i) = (nth i em 0 =? 1)) /\
  tested s' = tested s /\ output s' = output s /\
  bitbuffer_old s' = bitbuffer_old s /\
  exists p, store_bits di s = Ok p /\ same_pool p s'.

(** ** The health gate replayed over the blocks it was given

    [fips_run_rng_test] threads its context from block to block, so the
    verdicts of a run are a function of the blocks in [tested].
    [gate_replay] counts the passes; [whiten_replay] also follows what
    whitening mode writes and retains. *)
Definition gate_step (E : Env) (acc : fips_ctx_t E * nat) (block : list Z)
    : fips_ctx_t E * nat :=
  let r := fips_run_rng_test E (fst acc) block in
  (snd r, if fst r =? 0 then S (snd acc) else snd acc).

Definition gate_replay (E : Env) (blocks : list (list Z)) : fips_ctx_t E * nat :=
  fold_left (gate_step E) blocks (fips_init E, O).

Definition whiten_step (E : Env)
    (acc : fips_ctx_t E * list (list Z) * list Z) (block : list Z)
    : fips_ctx_t E * list (list Z) * list Z :=
  let r := fips_run_rng_test E (fst (fst acc)) block in
  if fst r =? 0
  then (snd r, snd (fst acc) ++ [snd acc], xor_block block (snd acc))
  else (snd r, snd (fst acc), snd acc).

Definition whiten_replay (E : Env) (blocks : list (list Z))
    : fips_ctx_t E * list (list Z) * list Z :=
  fold_left (whiten_step E) blocks
    (fips_init E, [], replicate (BUFFER_SIZE E) 0).

(** ** The loop around the batch, lines 378-389, and the end of [main],
    lines 473-482

    [do_exit] is written by [sighandler] only, whenever a signal arrives;
    the loop reads it at the loop test (once or twice), at the [SIGPIPE]
    test and once more after the loop.  [signals] says, for each coming
    read, which signal, if any, was handled last before it; when the list
    is used up no further signal arrives.  The calls the loop and the end
    of [main] make on the output and the device are recorded in
    [events]. *)
Definition SIGPIPE : Z := 13.

Inductive io_event : Type :=
| LogReaderGone
| LogWaiting
| LogUserCancel
| LogLibraryError
| FcloseOutput
| FopenFifo
| CloseDevice
| FreeBuffer.

Record control : Type := mkControl {
  do_exit : Z;
  signals : list (option Z);
  events : list io_event
}.

(** Every signal the handler is installed for has a number other than 0. *)
Definition real_signals (c : control) : Prop :=
  Forall (fun o => o <> Some 0) (signals c).

(** [sighandler], lines 176-179 *)
Definition sighandler (signum : Z) (c : control) : control :=
  mkControl signum (signals c) (events c).

Definition read_do_exit (c : control) : Z * control :=
  match signals c with
  | [] => (do_exit c, c)
  | None :: rest => (do_exit c, mkControl (do_exit c) rest (events c))
  | Some signum :: rest =>
      let c' := sighandler signum (mkControl (do_exit c) rest (events c)) in
      (do_exit c', c')
  end.

Definition emit (evs : list io_event) (c : control) : control :=
  mkControl (do_exit c) (signals c) (events c ++ evs).

Inductive loop_result (E : Env) : Type :=
| Running (c : control) (s : state E)
| LeftLoop (c : control) (s : state E)
| Faulted (f : fault) (c : control).
Arguments Running {E} c s.
Arguments LeftLoop {E} c s.
Arguments Faulted {E} f c.

(** The loop test [(!do_exit) || (do_exit == SIGPIPE)]: the second read
    only happens when the first one saw a signal. *)
Definition loop_test (c : control) : bool * control :=
  let (v1, c) := read_do_exit c in
  if v1 =? 0 then (true, c)
  else let (v2, c) := read_do_exit c in (v2 =? SIGPIPE, c).

(** Lines 379-389: what comes before the batch in one pass; [false] is
    the [break]. *)
Definition loop_head (E : Env) (c : control) : bool * control :=
  let (v, c) := read_do_exit c in
  if v =? SIGPIPE then
    let c := emit [LogReaderGone; FcloseOutput] c in
    if negb (gflags_detach E =? 0)
    then (true, emit [LogWaiting; FopenFifo] c)
    else (false, c)
  else (true, c).

(** [fuel] passes of the loop over the batch in [buffer], which nothing in
    the loop refills. *)
Fixpoint main_loop (E : Env) (buffer : list Z) (fuel : nat) (c : control)
    (s : state E) : loop_result E :=
  match fuel with
  | O => Running c s
  | S fuel' =>
      let (enter, c) := loop_test c in
      if enter then
        let (go_on, c) := loop_head E c in
        if go_on then
          match process_samples buffer s with
          | Ok s' => main_loop E buffer fuel' c s'
          | Fault f => Faulted f c
          end
        else LeftLoop c s
      else LeftLoop c s
  end.

(** Lines 473-482. *)
Definition epilogue (c : control) : control :=
  let (v, c) := read_do_exit c in
  emit [if v =? 0 then LogLibraryError else LogUserCancel;
        CloseDevice; FreeBuffer; FcloseOutput] c.

(** The loop and what follows it; [None] while the loop is still running
    or when the batch faulted. *)
Definition main_from_loop (E : Env) (buffer : list Z) (fuel : nat)
    (c : control) (s : state E) : option (control * state E) :=
  match main_loop E buffer fuel c s with
  | LeftLoop c s => Some (epilogue c, s)
  | _ => None
  end.

(** ** Start-up: [parse_args], [route_output] and lines 271-284 of [main]

    [getopt] hands the loop of [parse_args] one option character at a
    time, with its argument in [optarg]; the function is embedded over the
    list of those results, in order.  Characters are the [int] values C
    gives them.  The argument strings are only passed on to helpers outside
    the file, so their type is left open. *)
Module Cli.

Definition EXIT_SUCCESS : Z := 0.

(** ['a'], ['b'], ... as [getopt] returns them. *)
Definition opt_a : Z := 97.
Definition opt_b : Z := 98.
Definition opt_d : Z := 100.
Definition opt_e : Z := 101.
Definition opt_f : Z := 102.
Definition opt_g : Z := 103.
Definition opt_h : Z := 104.
Definition opt_o : Z := 111.
Definition opt_p : Z := 112.
Definition opt_s : Z := 115.
Definition opt_u : Z := 117.

(** What the start-up code calls outside the file: the conversions of
    [optarg] ([(int)(atof(optarg) * 10)], [(uint32_t)atofs(optarg)],
    [parse_group], [parse_user], which also writes [*gid]), whether
    [fopen(path, "w")] succeeds, whether [mkfifo] fails and with which
    [errno], and the path [DEFAULT_OUT_FILE] of [defines.h]. *)
Record Sys : Type := mkSys {
  arg : Type;
  gain_of : arg -> Z;
  atofs : arg -> Z;
  parse_group : arg -> Z;
  parse_user : arg -> Z -> Z * Z;
  fopen_w : arg -> bool;
  mkfifo_fails : bool;
  errno_is_EEXIST : bool;
  DEFAULT_OUT_FILE : arg
}.

(** A [FILE *]: [NULL], [stdout], or what [fopen] returned for a path. *)
Inductive stream (S : Sys) : Type :=
| NoStream
| Stdout
| Opened (path : arg S).
Arguments NoStream {S}.
Arguments Stdout {S}.
Arguments Opened {S} path.

Inductive event (S : Sys) : Type :=
| Fopen (path : arg S)
| FcloseStdout
| Mkfifo
| PerrorBadFifo
| LogWaitingForReader
| LogOptionsParsed
| Daemonize.
Arguments Fopen {S} path.
Arguments FcloseStdout {S}.
Arguments Mkfifo {S}.
Arguments PerrorBadFifo {S}.
Arguments LogWaitingForReader {S}.
Arguments LogOptionsParsed {S}.
Arguments Daemonize {S}.

(** [(float)n] for an [int] [n], as the assignment to [float gain] at line
    120 converts: [n] itself while it fits the 24-bit significand of a
    binary32, else the nearest multiple of the unit in the last place,
    a tie going to the even significand. *)
Definition float_of_int (n : Z) : Z :=
  let a := Z.abs n in
  let e := Z.log2 a - 23 in
  if e <=? 0 then n
  else
    let q := a / 2 ^ e in
    let r := a mod 2 ^ e in
    let half := 2 ^ (e - 1) in
    let q' := if (half <? r) || ((r =? half) && Z.odd q) then q + 1 else q in
    Z.sgn n * (q' * 2 ^ e).

(** The globals the start-up code writes; [gain] is the value of the
    [float], a whole number at every assignment of the file. *)
Record globals (S : Sys) : Type := mkGlobals {
  gain : Z;
  gflags_detach : Z;
  gflags_encryption : Z;
  frequency : Z;
  samp_rate : Z;
  uid : Z;
  gid : Z;
  redirect_output : Z;
  output : stream S;
  pidfile_path : option (arg S);
  trace : list (event S)
}.
Arguments mkGlobals {S}.
Arguments gain {S} g.
Arguments gflags_detach {S} g.
Arguments gflags_encryption {S} g.
Arguments frequency {S} g.
Arguments samp_rate {S} g.
Arguments uid {S} g.
Arguments gid {S} g.
Arguments redirect_output {S} g.
Arguments output {S} g.
Arguments pidfile_path {S} g.
Arguments trace {S} g.

(** [usage] ends the process with [exit(EXIT_SUCCESS)]; [suicide] is taken
    not to return either. *)
Inductive outcome (A : Type) : Type :=
| GoesOn (a : A)
| Exits (status : Z)
| Suicide.
Arguments GoesOn {A} a.
Arguments Exits {A} status.
Arguments Suicide {A}.

Section Code.
Variable S : Sys.

Definition log (e : event S) (g : globals S) : globals S :=
  mkGlobals (gain g) (gflags_detach g) (gflags_encryption g) (frequency g)
    (samp_rate g) (uid g) (gid g) (redirect_output g) (output g)
    (pidfile_path g) (trace g ++ [e]).

(** [usage], lines 91-110 *)
Definition usage : outcome (globals S) := Exits EXIT_SUCCESS.

(** One pass of the [switch], lines 118-171. *)
Definition option_step (opt : Z) (optarg : arg S) (g : globals S)
    : outcome (globals S) :=
  if opt =? opt_a then
    GoesOn (mkGlobals (float_of_int (gain_of S optarg)) (gflags_detach g)
              (gflags_encryption g) (frequency g) (samp_rate g) (uid g)
              (gid g) (redirect_output g) (output g) (pidfile_path g)
              (trace g))
  else if opt =? opt_b then
    GoesOn (mkGlobals (gain g) 1 (gflags_encryption g) (frequency g)
              (samp_rate g) (uid g) (gid g) (redirect_output g) (output g)
              (pidfile_path g) (trace g))
  else if opt =? opt_d then GoesOn g
  else if opt =? opt_e then
    GoesOn (mkGlobals (gain g) (gflags_detach g) 1 (frequency g)
              (samp_rate g) (uid g) (gid g) (redirect_output g) (output g)
              (pidfile_path g) (trace g))
  else if opt =? opt_f then
    GoesOn (mkGlobals (gain g) (gflags_detach g) (gflags_encryption g)
              (atofs S optarg) (samp_rate g) (uid g) (gid g)
              (redirect_output g) (output g) (pidfile_path g) (trace g))
  else if opt =? opt_g then
    GoesOn (mkGlobals (gain g) (gflags_detach g) (gflags_encryption g)
              (frequency g) (samp_rate g) (uid g) (parse_group S optarg)
              (redirect_output g) (output g) (pidfile_path g) (trace g))
  else if opt =? opt_h then usage
  else if opt =? opt_o then
    if fopen_w S optarg then
      GoesOn (mkGlobals (gain g) (gflags_detach g) (gflags_encryption g)
                (frequency g) (samp_rate g) (uid g) (gid g) 1
                (Opened optarg) (pidfile_path g)
                (trace g ++ [Fopen optarg; FcloseStdout]))
    else Suicide
  else if opt =? opt_p then
    GoesOn (mkGlobals (gain g) (gflags_detach g) (gflags_encryption g)
              (frequency g) (samp_rate g) (uid g) (gid g)
              (redirect_output g) (output g) (Some optarg) (trace g))
  else if opt =? opt_s then
    GoesOn (mkGlobals (gain g) (gflags_detach g) (gflags_encryption g)
              (frequency g) (atofs S optarg) (uid g) (gid g)
              (redirect_output g) (output g) (pidfile_path g) (trace g))
  else if opt =? opt_u then
    let r := parse_user S optarg (gid g) in
    GoesOn (mkGlobals (gain g) (gflags_detach g) (gflags_encryption g)
              (frequency g) (samp_rate g) (fst r) (snd r)
              (redirect_output g) (output g) (pidfile_path g) (trace g))
  else usage.

(** [parse_args], lines 113-174, over the results of [getopt] until it
    returns -1. *)
Fixpoint parse_args (opts : list (Z * arg S)) (g : globals S)
    : outcome (globals S) :=
  match opts with
  | [] => GoesOn g
  | (opt, optarg) :: opts' =>
      match option_step opt optarg g with
      | GoesOn g' => parse_args opts' g'
      | Exits status => Exits status
      | Suicide => Suicide
      end
  end.

(** [route_output], lines 218-234 *)
Definition route_output (g : globals S) : outcome (globals S) :=
  if redirect_output g =? 0 then
    let g := log Mkfifo g in
    let g := if mkfifo_fails S
             then (if errno_is_EEXIST S then g else log PerrorBadFifo g)
             else g in
    let g := log LogWaitingForReader g in
    let g := log (Fopen (DEFAULT_OUT_FILE S)) g in
    if fopen_w S (DEFAULT_OUT_FILE S) then
      GoesOn (mkGlobals (gain g) (gflags_detach g) (gflags_encryption g)
                (frequency g) (samp_rate g) (uid g) (gid g) 1
                (Opened (DEFAULT_OUT_FILE S)) (pidfile_path g)
                (trace g ++ [FcloseStdout]))
    else Suicide
  else GoesOn g.

(** Lines 271-284 of [main], as built where [daemonize] exists. *)
Definition startup (opts : list (Z * arg S)) (g : globals S)
    : outcome (globals S) :=
  match parse_args opts g with
  | GoesOn g =>
      let g := if negb (gflags_detach g =? 0) then log Daemonize g else g in
      let g := log LogOptionsParsed g in
      match (if negb (gflags_detach g =? 0) then route_output g else GoesOn g) with
      | GoesOn g =>
          GoesOn (if redirect_output g =? 0
                  then mkGlobals (gain g) (gflags_detach g)
                         (gflags_encryption g) (frequency g) (samp_rate g)
                         (uid g) (gid g) (redirect_output g) Stdout
                         (pidfile_path g) (trace g)
                  else g)
      | other => other
      end
  | other => other
  end.

End Code.

(** The argument of the last option [c] in a list of [getopt] results. *)
Fixpoint last_arg {S : Sys} (c : Z) (opts : list (Z * arg S))
    : option (arg S) :=
  match opts with
  | [] => None
  | (opt, optarg) :: opts' =>
      match last_arg c opts' with
      | Some a => Some a
      | None => if opt =? c then Some optarg else None
      end
  end.

(** The option characters [parse_args] has a [case] for, [-h] apart. *)
Definition known (opt : Z) : bool :=
  existsb (Z.eqb opt)
    [opt_a; opt_b; opt_d; opt_e; opt_f; opt_g; opt_o; opt_p; opt_s; opt_u].

End Cli.

(** A system to run the start-up code in: arguments are numbers, every
    conversion returns its argument, [parse_user] leaves the group alone,
    a file opens unless its path is 0, [mkfifo] finds the FIFO in place. *)
Definition demo_sys : Cli.Sys :=
  Cli.mkSys Z (fun a => a) (fun a => a) (fun a => a) (fun a g => (a, g))
    (fun a => negb (a =? 0)) true true 7.

(** The globals as the C file initialises them; the defaults of
    [defines.h] and of the PID file path are not in the file. *)
Definition demo_globals : Cli.globals demo_sys :=
  Cli.mkGlobals 1000 0 0 0 0 (-1) (-1) 0 Cli.NoStream None [].

(** ** Arithmetic helpers *)

Lemma u32_small (x : Z) : 0 <= x < 2 ^ 32 -> u32 x = x.
Proof. intros H. unfold u32. apply Z.mod_small. exact H. Qed.

Lemma u8_small (x : Z) : 0 <= x < 2 ^ 8 -> u8 x = x.
Proof. intros H. unfold u8. apply Z.mod_small. exact H. Qed.

Lemma arr_read_in (size : nat) (a : list Z) (i : Z) :
  0 <= i < Z.of_nat size -> arr_read size a i = Ok (a !!! Z.to_nat i).
Proof.
  intros [H0 H1]. unfold arr_read.
  apply Z.leb_le in H0. apply Z.ltb_lt in H1. rewrite H0, H1. reflexivity.
Qed.

Lemma arr_read_out (size : nat) (a : list Z) (i : Z) :
  Z.of_nat size <= i -> arr_read size a i = Fault (OutOfBounds i).
Proof.
  intros H. unfold arr_read.
  replace (i <? Z.of_nat size) with false by (symmetry; apply Z.ltb_ge; lia).
  rewrite andb_false_r. reflexivity.
Qed.

(** ** The discard pool *)

Section Pool.
Context {E : Env}.
Implicit Types s : state E.

Lemma pool_ok_init : pool_ok (init E).
Proof.
  unfold pool_ok, init, SHA512_DIGEST_LENGTH.
  cbn [hash_data_buffer hash_data_counter hash_data_bit_counter].
  rewrite length_replicate. lia.
Qed.

(** One call, spelled out: the bit cursor moves on, the byte cursor moves
    on every eighth call and wraps after the last byte, setting the flag. *)
Lemma store_hash_data_step s bit :
  pool_ok s ->
  exists s',
    store_hash_data bit s = Ok s' /\ pool_ok s' /\
    8 * hash_data_counter s' + hash_data_bit_counter s' =
      (8 * hash_data_counter s + hash_data_bit_counter s + 1) mod 512 /\
    hash_loop s' =
      (if 8 * hash_data_counter s + hash_data_bit_counter s =? 511
       then 1 else hash_loop s) /\
    bitbuffer s' = bitbuffer s /\ bitbuffer_old s' = bitbuffer_old s /\
    hash_buffer s' = hash_buffer s /\
    bitcounter s' = bitcounter s /\ buffercounter s' = buffercounter s /\
    fipsctx s' = fipsctx s /\ output s' = output s /\
    logged s' = logged s /\ tested s' = tested s.
Proof.
  intros (Hlen & Hc & Hb). unfold store_hash_data.
  rewrite arr_read_in by exact Hc. cbn [bind].
  unfold SHA512_DIGEST_LENGTH in *.
  cbn [set_hash_data_buffer set_hash_data_bit_counter set_hash_data_counter
       set_hash_loop hash_data_bit_counter hash_data_counter].
  rewrite (u32_small (hash_data_bit_counter s + 1)) by lia.
  destruct (Z.eqb_spec (hash_data_bit_counter s + 1) 8) as [H8 | H8].
  - cbn [set_hash_data_buffer set_hash_data_bit_counter set_hash_data_counter
         set_hash_loop hash_data_bit_counter hash_data_counter].
    rewrite (u32_small (hash_data_counter s + 1)) by lia.
    destruct (Z.eqb_spec (hash_data_counter s + 1) (Z.of_nat 64)) as [H64 | H64].
    + eexists; split; [reflexivity |].
      unfold pool_ok, SHA512_DIGEST_LENGTH; cbn. rewrite length_insert.
      replace (8 * hash_data_counter s + hash_data_bit_counter s) with 511 by lia.
      repeat split; try lia; try reflexivity; exact Hlen.
    + eexists; split; [reflexivity |].
      unfold pool_ok, SHA512_DIGEST_LENGTH; cbn. rewrite length_insert.
      destruct (Z.eqb_spec (8 * hash_data_counter s + hash_data_bit_counter s) 511);
        [lia |].
      rewrite Z.mod_small by lia.
      repeat split; try lia; try reflexivity; exact Hlen.
  - cbn [set_hash_data_buffer set_hash_data_bit_counter set_hash_data_counter
         set_hash_loop hash_data_bit_counter hash_data_counter].
    destruct (Z.eqb_spec (hash_data_counter s) (Z.of_nat 64)) as [H64 | H64];
      [lia |].
    eexists; split; [reflexivity |].
    unfold pool_ok, SHA512_DIGEST_LENGTH; cbn. rewrite length_insert.
    destruct (Z.eqb_spec (8 * hash_data_counter s + hash_data_bit_counter s) 511);
      [lia |].
    rewrite Z.mod_small by lia.
    repeat split; try lia; try reflexivity; exact Hlen.
Qed.

End Pool.

(** Record projections of the setters, by computation. *)
Ltac simpl_state :=
  cbn [bitbuffer bitbuffer_old hash_buffer hash_data_buffer bitcounter
       buffercounter hash_data_counter hash_data_bit_counter hash_loop
       fipsctx output logged tested
       set_bitbuffer set_bitbuffer_old set_hash_buffer set_hash_data_buffer
       set_bitcounter set_buffercounter set_hash_data_counter
       set_hash_data_bit_counter set_hash_loop run_fips fwrite log_failed
       fst snd bind] in *.

Section PoolRuns.
Context {E : Env}.
Implicit Types s : state E.

(** A run of [store_hash_data] calls, started after [n] earlier calls. *)
Lemma store_bits_count (bits : list Z) : forall s (n : Z),
  pool_ok s -> 0 <= n ->
  8 * hash_data_counter s + hash_data_bit_counter s = n mod 512 ->
  hash_loop s = (if 512 <=? n then 1 else 0) ->
  exists s',
    store_bits bits s = Ok s' /\ pool_ok s' /\
    8 * hash_data_counter s' + hash_data_bit_counter s' =
      (n + Z.of_nat (length bits)) mod 512 /\
    hash_loop s' = (if 512 <=? n + Z.of_nat (length bits) then 1 else 0).
Proof.
  induction bits as [| bit bits IH]; intros s n Hok Hn Hcur Hloop.
  - exists s. cbn [store_bits length]. rewrite Z.add_0_r. auto.
  - destruct (store_hash_data_step s bit Hok)
      as (s1 & Hrun & Hok1 & Hcur1 & Hloop1 & _).
    assert (Hn1 : 0 <= n + 1) by lia.
    assert (Hc1 : 8 * hash_data_counter s1 + hash_data_bit_counter s1 =
                  (n + 1) mod 512).
    { rewrite Hcur1, Hcur. apply Z.add_mod_idemp_l. lia. }
    assert (Hl1 : hash_loop s1 = (if 512 <=? n + 1 then 1 else 0)).
    { rewrite Hloop1, Hcur, Hloop.
      pose proof (Z.mod_pos_bound n 512 ltac:(lia)) as Hb.
      pose proof (Z.div_mod n 512 ltac:(lia)) as Hd.
      destruct (Z.eqb_spec (n mod 512) 511),
        (Z.leb_spec 512 n), (Z.leb_spec 512 (n + 1)); try reflexivity; lia. }
    destruct (IH s1 (n + 1) Hok1 Hn1 Hc1 Hl1)
      as (s' & Hrun' & Hok' & Hcur' & Hloop').
    exists s'. cbn [store_bits length]. rewrite Hrun. cbn [bind].
    rewrite Nat2Z.inj_succ.
    replace (n + Z.succ (Z.of_nat (length bits)))
      with (n + 1 + Z.of_nat (length bits)) by lia.
    auto.
Qed.

Lemma store_bits_ok (bits : list Z) : forall s,
  pool_ok s -> exists s', store_bits bits s = Ok s' /\ pool_ok s'.
Proof.
  induction bits as [| bit bits IH]; intros s Hok.
  - exists s. split; [reflexivity | exact Hok].
  - destruct (store_hash_data_step s bit Hok) as (s1 & Hrun & Hok1 & _).
    destruct (IH s1 Hok1) as (s' & Hrun' & Hok').
    exists s'. cbn [store_bits]. rewrite Hrun. cbn [bind]. auto.
Qed.

End PoolRuns.

(** ** The bit-pair loop, taken apart *)

Section Loop.
Context {E : Env}.
Implicit Types s : state E.

(** What one bit pair does when it does not fault. *)
Lemma debias_cases ch ch2 s s1 :
  debias ch ch2 s = Ok s1 ->
  (ch <> ch2 /\ ch = 0 /\ s1 = set_bitcounter (u32 (bitcounter s + 1)) s) \/
  (ch <> ch2 /\ ch <> 0 /\
     0 <= buffercounter s < Z.of_nat (BUFFER_SIZE E) /\
     s1 = set_bitcounter (u32 (bitcounter s + 1))
            (set_bitbuffer
               (<[Z.to_nat (buffercounter s) :=
                    u8 (Z.lor (bitbuffer s !!! Z.to_nat (buffercounter s))
                          (Z.shiftl 1 (bitcounter s)))]> (bitbuffer s)) s)) \/
  (ch = ch2 /\ store_hash_data (if ch =? 0 then 0 else 1) s = Ok s1).
Proof.
  unfold debias. intros H.
  destruct (Z.eqb_spec ch ch2) as [Heq | Hne]; cbn [negb] in H.
  - right; right. split; [exact Heq |].
    destruct (ch =? 0); exact H.
  - destruct (Z.eqb_spec ch 0) as [H0 | H0]; cbn [negb bind] in H.
    + left. inversion H. auto.
    + right; left.
      unfold arr_read in H.
      destruct (0 <=? buffercounter s) eqn:Hlo;
        destruct (buffercounter s <? Z.of_nat (BUFFER_SIZE E)) eqn:Hhi;
        cbn [andb bind] in H; try discriminate.
      apply Z.leb_le in Hlo. apply Z.ltb_lt in Hhi.
      inversion H. auto.
Qed.

Lemma window_cases b j s r :
  window b j s = Ok r ->
  exists s1,
    debias (pair_lo b j) (pair_hi b j) s = Ok s1 /\
    ((Z.of_nat (BUFFER_SIZE E) < buffercounter (byte_full s1) /\
        r = full_block j (byte_full s1)) \/
     (buffercounter (byte_full s1) <= Z.of_nat (BUFFER_SIZE E) /\
        r = (j, byte_full s1))).
Proof.
  unfold window. fold (pair_lo b j). fold (pair_hi b j). intros H.
  destruct (debias (pair_lo b j) (pair_hi b j) s) as [s1 | f] eqn:Hd;
    cbn [bind] in H; [| discriminate].
  exists s1. split; [reflexivity |].
  destruct (Z.ltb_spec (Z.of_nat (BUFFER_SIZE E)) (buffercounter (byte_full s1)));
    inversion H; auto.
Qed.

(** The report loop only logs. *)
Lemma report_failed_frame (masks : list Z) : forall j r s,
  let s' := report_failed masks j r s in
  bitbuffer s' = bitbuffer s /\ bitbuffer_old s' = bitbuffer_old s /\
  hash_buffer s' = hash_buffer s /\
  hash_data_buffer s' = hash_data_buffer s /\
  bitcounter s' = bitcounter s /\ buffercounter s' = buffercounter s /\
  hash_data_counter s' = hash_data_counter s /\
  hash_data_bit_counter s' = hash_data_bit_counter s /\
  hash_loop s' = hash_loop s /\ fipsctx s' = fipsctx s /\
  output s' = output s /\ tested s' = tested s /\
  logged s' = logged s ++
    (if gflags_detach E =? 0 then failed_tests masks j r else []).
Proof.
  induction masks as [| m masks IH]; intros j r s.
  - cbn [report_failed failed_tests]. cbn zeta.
    destruct (gflags_detach E =? 0);
      rewrite ?app_nil_r; repeat split; reflexivity.
  - cbn [report_failed failed_tests].
    specialize (IH (S j) r
      (if negb (Z.land r m =? 0)
       then if gflags_detach E =? 0 then log_failed j s else s else s)).
    cbn zeta in IH. destruct IH as (H1&H2&H3&H4&H5&H6&H7&H8&H9&H10&H11&H12&H13).
    cbn zeta.
    rewrite H1, H2, H3, H4, H5, H6, H7, H8, H9, H10, H11, H12, H13.
    destruct (negb (Z.land r m =? 0)), (gflags_detach E =? 0); simpl_state;
      rewrite <- ?app_assoc, ?app_nil_r; repeat split; reflexivity.
Qed.

(** The XOR loop touches the accumulator and its byte cursor only. *)
Lemma xor_old_frame (n : nat) : forall s,
  let s' := xor_old n s in
  length (bitbuffer s') = length (bitbuffer s) /\
  bitbuffer_old s' = bitbuffer_old s /\
  hash_buffer s' = hash_buffer s /\
  hash_data_buffer s' = hash_data_buffer s /\
  bitcounter s' = bitcounter s /\
  hash_data_counter s' = hash_data_counter s /\
  hash_data_bit_counter s' = hash_data_bit_counter s /\
  hash_loop s' = hash_loop s /\ fipsctx s' = fipsctx s /\
  output s' = output s /\ logged s' = logged s /\ tested s' = tested s.
Proof.
  induction n as [| n IH]; intros s.
  - cbn. repeat split; reflexivity.
  - cbn [xor_old]. cbn zeta.
    match goal with |- context [xor_old n ?t] => specialize (IH t) end.
    cbn zeta in IH. destruct IH as (H1&H2&H3&H4&H5&H6&H7&H8&H9&H10&H11&H12).
    rewrite H1, H2, H3, H4, H5, H6, H7, H8, H9, H10, H11, H12.
    simpl_state. rewrite length_insert. repeat split; reflexivity.
Qed.

End Loop.

Section Block.
Context {E : Env}.
Implicit Types s : state E.

(** The XOR loop, element by element. *)
Lemma xor_old_lookup (n : nat) : forall s (i : nat),
  0 <= buffercounter s ->
  buffercounter s + Z.of_nat n < 2 ^ 32 ->
  bitbuffer (xor_old n s) !!! i =
    if decide ((Z.to_nat (buffercounter s) <= i
                < Z.to_nat (buffercounter s) + n)%nat
               /\ (i < length (bitbuffer s))%nat)
    then Z.lxor (bitbuffer s !!! i) (bitbuffer_old s !!! i)
    else bitbuffer s !!! i.
Proof.
  induction n as [| n IH]; intros s i H0 Hlt.
  - cbn [xor_old]. case_decide; [lia | reflexivity].
  - cbn [xor_old]. cbn zeta. rewrite IH; simpl_state.
    + rewrite length_insert, u32_small by lia.
      rewrite list_lookup_total_insert.
      repeat case_decide; try lia; try reflexivity.
      match goal with H : Z.to_nat _ = i /\ _ |- _ => destruct H as [<- _] end.
      reflexivity.
    + unfold u32. apply Z.mod_pos_bound. lia.
    + rewrite u32_small by lia. lia.
Qed.

Lemma xor_old_block s :
  env_ok E ->
  length (bitbuffer s) = BUFFER_SIZE E ->
  length (bitbuffer_old s) = BUFFER_SIZE E ->
  bitbuffer (xor_old (BUFFER_SIZE E) (set_buffercounter 0 s)) =
    xor_block (bitbuffer s) (bitbuffer_old s).
Proof.
  intros HE Hbb Hold. unfold env_ok in HE.
  pose proof (xor_old_frame (BUFFER_SIZE E) (set_buffercounter 0 s)) as Hfr.
  cbn zeta in Hfr. destruct Hfr as (Hlen & _). simpl_state.
  apply (list_eq_same_length _ _ (BUFFER_SIZE E)).
  - unfold xor_block. rewrite length_zip_with. lia.
  - lia.
  - intros i x y Hi Hx Hy.
    apply list_lookup_alt in Hx as [_ <-].
    unfold xor_block in Hy. rewrite lookup_zip_with in Hy.
    rewrite (list_lookup_lookup_total_lt (bitbuffer s)) in Hy by lia.
    rewrite (list_lookup_lookup_total_lt (bitbuffer_old s)) in Hy by lia.
    cbn in Hy. inversion Hy; subst y.
    rewrite xor_old_lookup; simpl_state; try lia.
    case_decide; [reflexivity | lia].
Qed.

(** What every pass through the "buffer full" branch does, whatever the
    verdict and the mode: the accumulator is cleared, its byte cursor is
    back at 0, the discard pool is left alone. *)
Lemma full_block_frame j s :
  let r := full_block j s in
  bitbuffer (snd r) = replicate (BUFFER_SIZE E) 0 /\
  buffercounter (snd r) = 0 /\
  bitcounter (snd r) = bitcounter s /\
  hash_data_buffer (snd r) = hash_data_buffer s /\
  hash_data_counter (snd r) = hash_data_counter s /\
  hash_data_bit_counter (snd r) = hash_data_bit_counter s /\
  hash_loop (snd r) = hash_loop s /\
  tested (snd r) = tested s ++ [bitbuffer s] /\
  fipsctx (snd r) = snd (fips_run_rng_test E (fipsctx s) (bitbuffer s)) /\
  (fst r = j \/ fst r = Z.of_nat (N_FIPS_TESTS E)).
Proof.
  unfold full_block. cbn [run_fips]. cbn zeta.
  destruct (fst (fips_run_rng_test E (fipsctx s) (bitbuffer s)) =? 0).
  - destruct (negb (gflags_encryption E =? 0)).
    + destruct (negb (_ =? 0)); simpl_state; repeat split; auto.
    + match goal with |- context [xor_old ?n ?t] =>
        pose proof (xor_old_frame n t) as Hfr end.
      cbn zeta in Hfr. destruct Hfr as (_&H2&H3&H4&H5&H6&H7&H8&H9&H10&H11&H12).
      simpl_state. rewrite H4, H5, H6, H7, H8, H9, H12.
      repeat split; auto.
  - match goal with |- context [report_failed ?m ?k ?r ?t] =>
      pose proof (report_failed_frame m k r t) as Hfr end.
    cbn zeta in Hfr.
    destruct Hfr as (H1&H2&H3&H4&H5&H6&H7&H8&H9&H10&H11&H12&H13).
    simpl_state. rewrite H4, H5, H7, H8, H9, H10, H12.
    repeat split; auto.
Qed.

(** A failing verdict: nothing is written, the previous block and the
    digest are as before, and the report loop names the failed tests
    unless the program runs detached. *)
Lemma full_block_fail j s :
  fst (fips_run_rng_test E (fipsctx s) (bitbuffer s)) <> 0 ->
  let r := full_block j s in
  fst r = Z.of_nat (N_FIPS_TESTS E) /\
  output (snd r) = output s /\
  bitbuffer_old (snd r) = bitbuffer_old s /\
  hash_buffer (snd r) = hash_buffer s /\
  logged (snd r) = logged s ++
    (if gflags_detach E =? 0
     then failed_tests (fips_test_mask E) 0
            (fst (fips_run_rng_test E (fipsctx s) (bitbuffer s)))
     else []).
Proof.
  intros Hfail. unfold full_block. cbn [run_fips]. cbn zeta.
  destruct (Z.eqb_spec (fst (fips_run_rng_test E (fipsctx s) (bitbuffer s))) 0)
    as [H0 | H0]; [contradiction |].
  match goal with |- context [report_failed ?m ?k ?r ?t] =>
    pose proof (report_failed_frame m k r t) as Hfr end.
  cbn zeta in Hfr.
  destruct Hfr as (H1&H2&H3&H4&H5&H6&H7&H8&H9&H10&H11&H12&H13).
  simpl_state. rewrite H2, H3, H11, H13. repeat split; reflexivity.
Qed.

(** A passing verdict in whitening mode. *)
Lemma full_block_whiten j s :
  env_ok E ->
  length (bitbuffer s) = BUFFER_SIZE E ->
  length (bitbuffer_old s) = BUFFER_SIZE E ->
  fst (fips_run_rng_test E (fipsctx s) (bitbuffer s)) = 0 ->
  gflags_encryption E = 0 ->
  let r := full_block j s in
  fst r = j /\
  output (snd r) = output s ++ [bitbuffer_old s] /\
  bitbuffer_old (snd r) = xor_block (bitbuffer s) (bitbuffer_old s) /\
  hash_buffer (snd r) = hash_buffer s /\
  logged (snd r) = logged s.
Proof.
  intros HE Hbb Hold Hpass Henc. unfold full_block. cbn [run_fips]. cbn zeta.
  rewrite Hpass, Henc. cbn [Z.eqb negb].
  match goal with |- context [xor_old ?n (set_buffercounter 0 ?t)] =>
    pose proof (xor_old_frame n (set_buffercounter 0 t)) as Hfr;
    pose proof (xor_old_block t HE) as Hblk end.
  cbn zeta in Hfr. destruct Hfr as (_&H2&H3&H4&H5&H6&H7&H8&H9&H10&H11&H12).
  simpl_state. rewrite Hblk by assumption.
  rewrite H2, H3, H10, H11. repeat split; reflexivity.
Qed.

(** A passing verdict in encrypted mode. *)
Lemma full_block_encrypt j s :
  fst (fips_run_rng_test E (fipsctx s) (bitbuffer s)) = 0 ->
  gflags_encryption E <> 0 ->
  let r := full_block j s in
  fst r = j /\
  bitbuffer_old (snd r) = bitbuffer_old s /\
  logged (snd r) = logged s /\
  (hash_loop s = 0 ->
     output (snd r) = output s /\ hash_buffer (snd r) = hash_buffer s) /\
  (hash_loop s <> 0 ->
     output (snd r) = output s ++
       [aes_encrypt E (aes_init E (SHA512 E (hash_data_buffer s)))
          (bitbuffer s)] /\
     hash_buffer (snd r) = SHA512 E (hash_data_buffer s)).
Proof.
  intros Hpass Henc. unfold full_block. cbn [run_fips]. cbn zeta.
  rewrite Hpass. cbn [Z.eqb].
  destruct (Z.eqb_spec (gflags_encryption E) 0) as [? | _]; [contradiction |].
  cbn [negb]. simpl_state.
  destruct (Z.eqb_spec (hash_loop s) 0) as [H0 | H0]; cbn [negb]; simpl_state;
    repeat split; try reflexivity; intros; try contradiction; try congruence;
    split; reflexivity.
Qed.

End Block.

Section Steps.
Context {E : Env}.
Implicit Types s : state E.

(** A call of [store_hash_data] that does not fault leaves everything but
    the pool alone, and never clears the flag. *)
Lemma store_hash_data_frame bit s s' :
  store_hash_data bit s = Ok s' ->
  bitbuffer s' = bitbuffer s /\ bitbuffer_old s' = bitbuffer_old s /\
  hash_buffer s' = hash_buffer s /\
  bitcounter s' = bitcounter s /\ buffercounter s' = buffercounter s /\
  fipsctx s' = fipsctx s /\ output s' = output s /\
  logged s' = logged s /\ tested s' = tested s /\
  (hash_loop s' = 1 \/ hash_loop s' = hash_loop s).
Proof.
  unfold store_hash_data. intros H.
  destruct (arr_read _ _ _) as [old | f]; cbn [bind] in H; [| discriminate].
  inversion H as [Hs]; clear H Hs.
  repeat match goal with
         | |- context [if ?c then _ else _] => destruct c
         end; simpl_state; repeat split; auto.
Qed.

Lemma store_hash_data_fault bit s f :
  store_hash_data bit s = Fault f -> exists i, f = OutOfBounds i.
Proof.
  unfold store_hash_data, arr_read. intros H.
  destruct ((0 <=? hash_data_counter s) && _); cbn [bind] in H.
  - discriminate.
  - inversion H. eauto.
Qed.

(** One bit pair never runs out of fuel: it has no loop of its own. *)
Lemma window_fault b j s f :
  window b j s = Fault f -> exists i, f = OutOfBounds i.
Proof.
  unfold window, debias. intros H.
  destruct (negb (_ =? _)).
  - destruct (negb (_ =? 0)); cbn [bind] in H.
    + unfold arr_read in H.
      destruct ((0 <=? buffercounter s) && _); cbn [bind] in H.
      * destruct (_ <? _); discriminate.
      * inversion H. eauto.
    + destruct (_ <? _); discriminate.
  - destruct (negb (_ =? 0));
      match type of H with
      | context [store_hash_data ?v s] =>
          destruct (store_hash_data v s) as [s1 | f1] eqn:Hst
      end; cbn [bind] in H;
      try (destruct (_ <? _); discriminate);
      inversion H; subst; eapply store_hash_data_fault; eassumption.
Qed.

(** The three ways a bit pair can move the accumulator cursor: within a
    byte, onto the next byte, or through the "buffer full" branch. *)
Lemma window_step b j s r :
  env_ok E -> acc_ok s -> window b j s = Ok r ->
  acc_ok (snd r) /\
  ((fst r = j /\ buffercounter (snd r) = buffercounter s /\
      bitcounter s <= bitcounter (snd r) <= bitcounter s + 1 /\
      tested (snd r) = tested s /\ output (snd r) = output s) \/
   (fst r = j /\ buffercounter (snd r) = buffercounter s + 1 /\
      bitcounter (snd r) = 0 /\ bitcounter s = 7 /\
      tested (snd r) = tested s /\ output (snd r) = output s) \/
   (buffercounter (snd r) = 0 /\ bitcounter (snd r) = 0 /\
      bitcounter s = 7 /\ buffercounter s = Z.of_nat (BUFFER_SIZE E) /\
      (fst r = j \/ fst r = Z.of_nat (N_FIPS_TESTS E)) /\
      bitbuffer (snd r) = replicate (BUFFER_SIZE E) 0 /\
      length (tested (snd r)) = S (length (tested s)))).
Proof.
  intros HE (Hlen & Hbit & Hbuf) Hw. unfold env_ok in HE.
  apply window_cases in Hw as (s1 & Hd & Hr).
  assert (Hs1 : length (bitbuffer s1) = BUFFER_SIZE E /\
                buffercounter s1 = buffercounter s /\
                bitcounter s <= bitcounter s1 <= bitcounter s + 1 /\
                tested s1 = tested s /\ output s1 = output s).
  { apply debias_cases in Hd as [(_ & _ & ->) | [(_ & _ & _ & ->) | (_ & Hst)]].
    - simpl_state. rewrite u32_small by lia. repeat split; auto; lia.
    - simpl_state. rewrite length_insert, u32_small by lia.
      repeat split; auto; lia.
    - apply store_hash_data_frame in Hst
        as (-> & _ & _ & -> & -> & _ & -> & _ & -> & _).
      repeat split; auto; lia. }
  destruct Hs1 as (Hlen1 & Hbuf1 & Hbit1 & Htst1 & Hout1).
  unfold byte_full in Hr.
  destruct (Z.leb_spec 8 (bitcounter s1)) as [H8 | H8]; simpl_state.
  - rewrite u32_small in Hr by lia.
    destruct Hr as [(Htrig & ->) | (Hno & ->)].
    + pose proof (full_block_frame j
        (set_bitcounter 0 (set_buffercounter (buffercounter s1 + 1) s1))) as Hfr.
      cbn zeta in Hfr.
      destruct Hfr as (Hbb & Hbc & Hbit' & _ & _ & _ & _ & Htst & _ & Hj).
      simpl_state. split.
      * unfold acc_ok. rewrite Hbb, Hbc, Hbit', length_replicate. lia.
      * right; right. rewrite Hbc, Hbit', Htst, length_app, Htst1.
        cbn [length]. repeat split; auto; lia.
    + simpl_state. split.
      * unfold acc_ok. simpl_state. lia.
      * right; left. repeat split; auto; lia.
  - destruct Hr as [(Htrig & ->) | (Hno & ->)]; [lia |].
    simpl_state. split.
    + unfold acc_ok. lia.
    + left. repeat split; auto; lia.
Qed.

(** Within a freshly reset block, [k] more bit pairs cannot fill a byte. *)
Lemma window_loop_fresh (b : Z) (fuel : nat) : forall (k : nat) j s,
  env_ok E -> acc_ok s -> 0 <= j ->
  buffercounter s = 0 -> bitcounter s + Z.of_nat k <= 7 ->
  6 <= j + 2 * Z.of_nat k -> (k <= fuel)%nat ->
  window_loop fuel b j s <> Fault OutOfFuel.
Proof.
  induction fuel as [| fuel IH]; intros k j s HE Hacc Hj Hbuf Hbit Hk Hfuel;
    cbn [window_loop]; destruct (Z.leb_spec 6 j) as [H6 | H6];
    try discriminate; try lia.
  destruct (window b j s) as [r | f] eqn:Hw; cbn [bind].
  - destruct (window_step b j s r HE Hacc Hw)
      as (Hacc' & [(Hj' & Hbuf' & Hbit' & _) | [(_ & _ & _ & H7 & _) | (_ & _ & H7 & _)]]);
      try lia.
    rewrite Hj', u32_small by lia.
    apply (IH (Nat.pred k)); auto; lia.
  - destruct (window_fault b j s f Hw) as (i & ->). discriminate.
Qed.

(** Six iterations are enough for one sample: three bit pairs, and at
    most three more when the report loop has moved [j]. *)
Lemma window_loop_fuel (b : Z) (fuel : nat) : forall j s,
  env_ok E -> acc_ok s -> 0 <= j ->
  6 <= j + 2 * (Z.of_nat fuel - 3) ->
  window_loop fuel b j s <> Fault OutOfFuel.
Proof.
  induction fuel as [| fuel IH]; intros j s HE Hacc Hj Hfuel;
    cbn [window_loop]; destruct (Z.leb_spec 6 j) as [H6 | H6];
    try discriminate; try lia.
  destruct (window b j s) as [r | f] eqn:Hw; cbn [bind].
  - destruct (window_step b j s r HE Hacc Hw)
      as (Hacc' & [(Hj' & _) | [(Hj' & _) | (Hbuf' & Hbit' & _ & _ & [Hj' | Hj'] & _)]]).
    + rewrite Hj', u32_small by lia. apply IH; auto; lia.
    + rewrite Hj', u32_small by lia. apply IH; auto; lia.
    + rewrite Hj', u32_small by lia. apply IH; auto; lia.
    + apply (window_loop_fresh b fuel 3); auto; try lia.
      * unfold u32. apply Z.mod_pos_bound. lia.
      * assert (0 <= u32 (fst r + 2)) by (unfold u32; apply Z.mod_pos_bound; lia).
        lia.
  - destruct (window_fault b j s f Hw) as (i & ->). discriminate.
Qed.

Lemma process_sample_fuel b s :
  env_ok E -> acc_ok s -> process_sample b s <> Fault OutOfFuel.
Proof.
  intros HE Hacc. unfold process_sample.
  apply window_loop_fuel; auto; lia.
Qed.

(** Whatever each bit pair preserves, a batch of samples preserves. *)
Lemma window_loop_inv (I : state E -> Prop) :
  (forall b j s r, I s -> window b j s = Ok r -> I (snd r)) ->
  forall fuel b j s s', I s -> window_loop fuel b j s = Ok s' -> I s'.
Proof.
  intros Hstep. induction fuel as [| fuel IH]; intros b j s s' HI Hrun;
    cbn [window_loop] in Hrun; destruct (6 <=? j).
  - inversion Hrun; subst; exact HI.
  - discriminate.
  - inversion Hrun; subst; exact HI.
  - destruct (window b j s) as [r | f] eqn:Hw; cbn [bind] in Hrun;
      [| discriminate].
    eapply IH; [| exact Hrun]. eapply Hstep; eauto.
Qed.

Lemma process_samples_inv (I : state E -> Prop) :
  (forall b j s r, I s -> window b j s = Ok r -> I (snd r)) ->
  forall buffer s s', I s -> process_samples buffer s = Ok s' -> I s'.
Proof.
  intros Hstep. induction buffer as [| b buffer IH]; intros s s' HI Hrun;
    cbn [process_samples] in Hrun.
  - inversion Hrun; subst; exact HI.
  - destruct (process_sample b s) as [s1 | f] eqn:Hp; cbn [bind] in Hrun;
      [| discriminate].
    eapply IH; [| exact Hrun].
    eapply window_loop_inv; eauto.
Qed.

End Steps.

(** ** Streams of samples whose bit pairs all read (0, 1) *)

Section ZeroStream.
Context {E : Env}.
Implicit Types s : state E.

Lemma process_samples_app (l1 l2 : list Z) : forall s,
  process_samples (l1 ++ l2) s =
    (s1 <-- process_samples l1 s ;; process_samples l2 s1).
Proof.
  induction l1 as [| b l1 IH]; intros s; cbn [app process_samples bind].
  - reflexivity.
  - destruct (process_sample b s) as [s1 | f]; cbn [bind]; [apply IH | reflexivity].
Qed.

(** A pair that reads (0, 1) stores nothing and moves the cursor on. *)
Lemma window_emit0 b j s :
  pair_lo b j = 0 -> pair_hi b j = 1 ->
  window b j s =
    Ok (let s2 := byte_full (set_bitcounter (u32 (bitcounter s + 1)) s) in
        if Z.of_nat (BUFFER_SIZE E) <? buffercounter s2
        then full_block j s2 else (j, s2)).
Proof.
  intros Hlo Hhi. unfold window, debias.
  fold (pair_lo b j). fold (pair_hi b j). rewrite Hlo, Hhi.
  cbn [Z.eqb negb bind]. cbn zeta.
  destruct (_ <? _); reflexivity.
Qed.

(** A pair that reads (1, 0) when the byte cursor stands one past the end
    of the accumulator stores to [bitbuffer[BUFFER_SIZE]]. *)
Lemma window_emit1_past_end b j s :
  pair_lo b j = 1 -> pair_hi b j = 0 ->
  buffercounter s = Z.of_nat (BUFFER_SIZE E) ->
  window b j s = Fault (OutOfBounds (Z.of_nat (BUFFER_SIZE E))).
Proof.
  intros Hlo Hhi Hbuf. unfold window, debias.
  fold (pair_lo b j). fold (pair_hi b j). rewrite Hlo, Hhi.
  cbn [Z.eqb negb]. rewrite arr_read_out by lia. cbn [bind].
  rewrite Hbuf. reflexivity.
Qed.

Lemma advance_succ (c : Z) s :
  env_ok E -> 0 <= c -> c + 1 <= 8 * Z.of_nat (BUFFER_SIZE E) + 7 ->
  byte_full (set_bitcounter (u32 (bitcounter (advance c s) + 1)) (advance c s))
    = advance (c + 1) s /\
  buffercounter (advance (c + 1) s) <= Z.of_nat (BUFFER_SIZE E).
Proof.
  intros HE H0 Hc. unfold env_ok in HE. unfold advance, byte_full. simpl_state.
  pose proof (Z.div_mod c 8 ltac:(lia)) as Hd.
  pose proof (Z.mod_pos_bound c 8 ltac:(lia)) as Hm.
  pose proof (Z.div_mod (c + 1) 8 ltac:(lia)) as Hd1.
  pose proof (Z.mod_pos_bound (c + 1) 8 ltac:(lia)) as Hm1.
  rewrite (u32_small (c mod 8 + 1)) by lia.
  destruct (Z.leb_spec 8 (c mod 8 + 1)) as [H8 | H8]; simpl_state.
  - rewrite u32_small by lia.
    assert ((c + 1) / 8 = c / 8 + 1) as -> by lia.
    assert ((c + 1) mod 8 = 0) as -> by lia.
    split; [reflexivity | lia].
  - assert ((c + 1) / 8 = c / 8) as -> by lia.
    assert ((c + 1) mod 8 = c mod 8 + 1) as -> by lia.
    split; [reflexivity | lia].
Qed.

Lemma window_zero_advance b (j c : Z) s :
  env_ok E -> pair_lo b j = 0 -> pair_hi b j = 1 ->
  0 <= c -> c + 1 <= 8 * Z.of_nat (BUFFER_SIZE E) + 7 ->
  window b j (advance c s) = Ok (j, advance (c + 1) s).
Proof.
  intros HE Hlo Hhi H0 Hc. rewrite window_emit0 by assumption. cbn zeta.
  destruct (advance_succ c s HE H0 Hc) as [-> Hle].
  destruct (Z.ltb_spec (Z.of_nat (BUFFER_SIZE E)) (buffercounter (advance (c + 1) s)));
    [lia | reflexivity].
Qed.

(** One sample [0b101010]: three bits, none of them stored. *)
Lemma sample_zero_advance (c : Z) s :
  env_ok E -> 0 <= c -> c + 3 <= 8 * Z.of_nat (BUFFER_SIZE E) + 7 ->
  process_sample 42 (advance c s) = Ok (advance (c + 3) s).
Proof.
  intros HE H0 Hc. unfold process_sample. cbn [window_loop Z.leb Z.compare].
  rewrite (window_zero_advance 42 0) by (auto; lia). cbn [bind fst snd].
  change (u32 (0 + 2)) with 2. cbn [window_loop Z.leb Z.compare Pos.compare
                                      Pos.compare_cont].
  rewrite (window_zero_advance 42 2) by (auto; lia). cbn [bind fst snd].
  change (u32 (2 + 2)) with 4. cbn [window_loop Z.leb Z.compare Pos.compare
                                      Pos.compare_cont].
  rewrite (window_zero_advance 42 4) by (auto; lia). cbn [bind fst snd].
  change (u32 (4 + 2)) with 6. cbn [window_loop Z.leb Z.compare Pos.compare
                                      Pos.compare_cont].
  replace (c + 1 + 1 + 1) with (c + 3) by lia. reflexivity.
Qed.

(** [k] such samples, as long as the cursor stays short of the bit that
    takes the "buffer full" branch. *)
Lemma zero_stream (k : nat) : forall (c : Z) s,
  env_ok E -> 0 <= c ->
  c + 3 * Z.of_nat k <= 8 * Z.of_nat (BUFFER_SIZE E) + 7 ->
  process_samples (replicate k 42) (advance c s)
    = Ok (advance (c + 3 * Z.of_nat k) s).
Proof.
  induction k as [| k IH]; intros c s HE H0 Hc.
  - cbn [replicate process_samples]. rewrite Z.add_0_r. reflexivity.
  - cbn [replicate process_samples].
    rewrite sample_zero_advance by (auto; lia). cbn [bind].
    rewrite IH by (auto; lia). do 2 f_equal. lia.
Qed.

Lemma advance_init : advance 0 (init E) = init E.
Proof. reflexivity. Qed.

End ZeroStream.

(** ** The pool as the sample loop drives it *)

Section PoolInLoop.
Context {E : Env}.
Implicit Types s : state E.

(** A bit pair either leaves the pool alone (unequal bits) or makes one
    call of [store_hash_data] with the common bit (equal bits). *)
Lemma window_pool b j s r :
  window b j s = Ok r ->
  (pair_lo b j <> pair_hi b j /\ same_pool s (snd r)) \/
  (pair_lo b j = pair_hi b j /\
     exists s1,
       store_hash_data (if pair_lo b j =? 0 then 0 else 1) s = Ok s1 /\
       same_pool s1 (snd r)).
Proof.
  intros Hw. apply window_cases in Hw as (s1 & Hd & Hr).
  assert (Hbf : same_pool s1 (byte_full s1)).
  { unfold byte_full, same_pool. destruct (8 <=? bitcounter s1); simpl_state; auto. }
  assert (Hr' : same_pool s1 (snd r)).
  { destruct Hr as [(_ & ->) | (_ & ->)]; [| exact Hbf].
    pose proof (full_block_frame j (byte_full s1)) as Hfr. cbn zeta in Hfr.
    destruct Hfr as (_ & _ & _ & H1 & H2 & H3 & H4 & _).
    destruct Hbf as (G1 & G2 & G3 & G4).
    unfold same_pool. rewrite H1, H2, H3, H4. auto. }
  apply debias_cases in Hd as [(Hne & _ & Hs1) | [(Hne & _ & _ & Hs1) | (Heq & Hst)]].
  - left. split; [exact Hne |]. subst s1. exact Hr'.
  - left. split; [exact Hne |]. subst s1. exact Hr'.
  - right. split; [exact Heq |]. exists s1. auto.
Qed.

Lemma window_pool_ok b j s r :
  pool_ok s -> window b j s = Ok r -> pool_ok (snd r).
Proof.
  intros Hok Hw.
  assert (Hsame : forall s1 s2 : state E, same_pool s1 s2 -> pool_ok s1 -> pool_ok s2).
  { intros s1 s2 (H1 & H2 & H3 & _). unfold pool_ok. rewrite H1, H2, H3. auto. }
  apply window_pool in Hw as [(_ & Hs) | (_ & s1 & Hst & Hs)].
  - eapply Hsame; eauto.
  - destruct (store_hash_data_step s (if pair_lo b j =? 0 then 0 else 1) Hok)
      as (s1' & Hst' & Hok1 & _).
    rewrite Hst in Hst'. inversion Hst'; subst s1'.
    eapply Hsame; eauto.
Qed.

Lemma window_hash_loop b j s r :
  hash_loop s = 1 -> window b j s = Ok r -> hash_loop (snd r) = 1.
Proof.
  intros H1 Hw.
  apply window_pool in Hw as [(_ & (_ & _ & _ & Hs)) | (_ & s1 & Hst & (_ & _ & _ & Hs))].
  - congruence.
  - apply store_hash_data_frame in Hst.
    destruct Hst as (_ & _ & _ & _ & _ & _ & _ & _ & _ & [H | H]); congruence.
Qed.

End PoolInLoop.

(** C10: after every call of [store_hash_data] the pool cursors satisfy
    [hash_data_counter < SHA512_DIGEST_LENGTH] and
    [hash_data_bit_counter < 8]: from a state whose cursors are in range,
    any sequence of discarded bits is stored without an access outside
    [hash_data_buffer] (the run returns [Ok]) and leaves the cursors in
    range; the sample loop, which touches the pool only through
    [store_hash_data], keeps them in range as well. *)
Theorem store_hash_data_cursors_in_bounds (E : Env) (s : state E) (bits : list Z) :
  pool_ok s ->
  (exists s',
     store_bits bits s = Ok s' /\
     length (hash_data_buffer s') = SHA512_DIGEST_LENGTH /\
     0 <= hash_data_counter s' < Z.of_nat SHA512_DIGEST_LENGTH /\
     0 <= hash_data_bit_counter s' < 8) /\
  (forall buffer s',
     process_samples buffer s = Ok s' ->
     0 <= hash_data_counter s' < Z.of_nat SHA512_DIGEST_LENGTH /\
     0 <= hash_data_bit_counter s' < 8).
Proof.
  intros Hok. split.
  - destruct (store_bits_ok bits s Hok) as (s' & Hrun & Hok').
    exists s'. split; [exact Hrun | exact Hok'].
  - intros buffer s' Hrun.
    assert (Hok' : pool_ok s').
    { eapply (process_samples_inv pool_ok); eauto.
      intros b j s0 r H0 Hw. eapply window_pool_ok; eauto. }
    destruct Hok' as (_ & Hc & Hb). auto.
Qed.

(** C4: fed any sequence of discarded bits from the start of the run, the
    flag [hash_loop] is set exactly when [8 * SHA512_DIGEST_LENGTH] bits
    have been stored, which is when the write cursor has passed every byte
    of the pool and is back at its start; once set, neither a further call
    of [store_hash_data] nor anything in the sample loop (block resets and
    failed health tests included) clears it. *)
Theorem hash_loop_set_by_first_wrap_and_kept (E : Env) (bits : list Z) :
  (exists s,
     store_bits bits (init E) = Ok s /\
     hash_loop s =
       (if Z.of_nat (8 * SHA512_DIGEST_LENGTH) <=? Z.of_nat (length bits)
        then 1 else 0) /\
     8 * hash_data_counter s + hash_data_bit_counter s =
       Z.of_nat (length bits) mod Z.of_nat (8 * SHA512_DIGEST_LENGTH)) /\
  (forall (s s' : state E) bit,
     hash_loop s = 1 -> store_hash_data bit s = Ok s' -> hash_loop s' = 1) /\
  (forall (s : state E) j, hash_loop (snd (full_block j s)) = hash_loop s) /\
  (forall (s s' : state E) buffer,
     hash_loop s = 1 -> process_samples buffer s = Ok s' -> hash_loop s' = 1).
Proof.
  split; [| split; [| split]].
  - destruct (store_bits_count bits (init E) 0 pool_ok_init) as (s & Hrun & _ & Hcur & Hloop);
      try reflexivity; try lia.
    exists s. change (Z.of_nat (8 * SHA512_DIGEST_LENGTH)) with 512.
    rewrite Z.add_0_l in Hcur, Hloop. auto.
  - intros s s' bit H1 Hst. apply store_hash_data_frame in Hst.
    destruct Hst as (_ & _ & _ & _ & _ & _ & _ & _ & _ & [H | H]); congruence.
  - intros s j. pose proof (full_block_frame j s) as Hfr. cbn zeta in Hfr.
    destruct Hfr as (_ & _ & _ & _ & _ & _ & H & _). exact H.
  - intros s s' buffer H1 Hrun.
    eapply (process_samples_inv (fun s => hash_loop s = 1)); eauto.
    intros b j s0 r H0 Hw. eapply window_hash_loop; eauto.
Qed.

(** ** Bits of the accumulator *)

Lemma testbit_set_bit (old bc k : Z) :
  0 <= bc -> 0 <= k < 8 ->
  Z.testbit (u8 (Z.lor old (Z.shiftl 1 bc))) k = Z.testbit old k || (bc =? k).
Proof.
  intros Hbc Hk. unfold u8.
  rewrite Z.mod_pow2_bits_low by lia.
  rewrite Z.lor_spec, Z.shiftl_1_l, Z.pow2_bits_eqb by lia.
  reflexivity.
Qed.

Section Accumulator.
Context {E : Env}.
Implicit Types s : state E.

Lemma acc_ok_init : acc_ok (init E).
Proof.
  unfold acc_ok, init. simpl_state. rewrite length_replicate. lia.
Qed.

Lemma zero_beyond_cleared s :
  bitbuffer s = replicate (BUFFER_SIZE E) 0 -> zero_beyond s.
Proof.
  intros Hbb i k Hi Hk _. rewrite Hbb, lookup_total_replicate_2 by exact Hi.
  apply Z.testbit_0_l.
Qed.

(** The state between the bit store and the "byte full" test may have
    [bitcounter = 8]; the property is stated so that it covers it. *)
Lemma debias_zero_beyond ch ch2 s s1 :
  acc_ok s -> zero_beyond s -> debias ch ch2 s = Ok s1 -> zero_beyond s1.
Proof.
  intros (Hlen & Hbit & Hbuf) Hz Hd.
  apply debias_cases in Hd as [(_ & _ & ->) | [(_ & _ & Hin & ->) | (_ & Hst)]].
  - intros i k Hi Hk Hpos. simpl_state. rewrite u32_small in Hpos by lia.
    apply Hz; auto. lia.
  - intros i k Hi Hk Hpos. simpl_state. rewrite u32_small in Hpos by lia.
    rewrite list_lookup_total_insert. case_decide as Hdec.
    + destruct Hdec as [<- _].
      rewrite testbit_set_bit by lia.
      rewrite Hz by (auto; lia).
      destruct (Z.eqb_spec (bitcounter s) k); [lia | reflexivity].
    + apply Hz; auto.
      destruct Hpos as [Hpos | [Hpos Hk']]; [lia |].
      exfalso. apply Hdec. split; lia.
  - apply store_hash_data_frame in Hst as (Hbb & _ & _ & Hbc & Hbf & _).
    intros i k Hi Hk Hpos. rewrite Hbb. rewrite Hbc, Hbf in Hpos. auto.
Qed.

Lemma byte_full_zero_beyond s :
  env_ok E -> 0 <= buffercounter s <= Z.of_nat (BUFFER_SIZE E) ->
  zero_beyond s -> zero_beyond (byte_full s).
Proof.
  intros HE Hbuf Hz. unfold env_ok in HE. unfold byte_full.
  destruct (Z.leb_spec 8 (bitcounter s)) as [H8 | H8]; [| exact Hz].
  intros i k Hi Hk Hpos. simpl_state. rewrite u32_small in Hpos by lia.
  apply Hz; auto. lia.
Qed.

Lemma window_zero_beyond b j s r :
  env_ok E -> acc_ok s -> zero_beyond s -> window b j s = Ok r ->
  zero_beyond (snd r).
Proof.
  intros HE Hacc Hz Hw.
  apply window_cases in Hw as (s1 & Hd & Hr).
  destruct Hr as [(_ & ->) | (_ & ->)].
  - apply zero_beyond_cleared.
    pose proof (full_block_frame j (byte_full s1)) as Hfr. cbn zeta in Hfr.
    apply Hfr.
  - apply byte_full_zero_beyond; auto.
    + destruct Hacc as (_ & _ & Hbuf).
      apply debias_cases in Hd as [(_ & _ & ->) | [(_ & _ & _ & ->) | (_ & Hst)]];
        simpl_state; auto.
      apply store_hash_data_frame in Hst as (_ & _ & _ & _ & -> & _). auto.
    + eapply debias_zero_beyond; eauto.
Qed.

(** With the cursor inside the accumulator, a pair of unequal bits is
    stored without a fault, and the bit found at the cursor afterwards is
    the emitted one: set by the store for a 1, already clear for a 0. *)
Lemma debias_stores_bit ch ch2 s :
  acc_ok s -> zero_beyond s ->
  buffercounter s < Z.of_nat (BUFFER_SIZE E) ->
  ch <> ch2 -> ch = 0 \/ ch = 1 ->
  exists s1,
    debias ch ch2 s = Ok s1 /\
    Z.testbit (bitbuffer s1 !!! Z.to_nat (buffercounter s)) (bitcounter s)
      = (ch =? 1) /\
    (ch = 0 -> bitbuffer s1 = bitbuffer s).
Proof.
  intros (Hlen & Hbit & Hbuf) Hz Hin Hne Hch. unfold debias.
  destruct (Z.eqb_spec ch ch2) as [? | _]; [contradiction |]. cbn [negb].
  destruct Hch as [-> | ->]; cbn [Z.eqb negb bind].
  - eexists. split; [reflexivity |]. simpl_state. split; [| reflexivity].
    apply Hz; lia.
  - rewrite arr_read_in by lia. cbn [bind].
    eexists. split; [reflexivity |]. simpl_state. split; [| discriminate].
    rewrite list_lookup_total_insert_eq by lia.
    rewrite testbit_set_bit by lia.
    rewrite Z.eqb_refl. apply orb_true_r.
Qed.

End Accumulator.

(** C9: between block resets every bit of the accumulator at or after the
    write cursor (byte [buffercounter], bit [bitcounter]) is clear.  It
    holds at the start, every bit pair that does not fault keeps it, so it
    holds after any batch of samples; with it, leaving the buffer untouched
    for an emitted 0 leaves the right bit at the cursor; and after every
    block, delivered or not, the whole buffer is zeroed, which restores
    it. *)
Theorem accumulator_clear_beyond_cursor (E : Env) :
  env_ok E ->
  (acc_ok (init E) /\ zero_beyond (init E)) /\
  (forall b j (s : state E) r,
     acc_ok s -> zero_beyond s -> window b j s = Ok r ->
     acc_ok (snd r) /\ zero_beyond (snd r)) /\
  (forall buffer (s : state E),
     process_samples buffer (init E) = Ok s -> acc_ok s /\ zero_beyond s) /\
  (forall ch ch2 (s : state E),
     acc_ok s -> zero_beyond s ->
     buffercounter s < Z.of_nat (BUFFER_SIZE E) ->
     ch <> ch2 -> ch = 0 \/ ch = 1 ->
     exists s1,
       debias ch ch2 s = Ok s1 /\
       Z.testbit (bitbuffer s1 !!! Z.to_nat (buffercounter s)) (bitcounter s)
         = (ch =? 1) /\
       (ch = 0 -> bitbuffer s1 = bitbuffer s)) /\
  (forall j (s : state E),
     bitbuffer (snd (full_block j s)) = replicate (BUFFER_SIZE E) 0 /\
     zero_beyond (snd (full_block j s))).
Proof.
  intros HE.
  assert (Hstep : forall b j (s : state E) r,
             acc_ok s /\ zero_beyond s -> window b j s = Ok r ->
             acc_ok (snd r) /\ zero_beyond (snd r)).
  { intros b j s r [Hacc Hz] Hw. split.
    - eapply window_step; eauto.
    - eapply window_zero_beyond; eauto. }
  assert (Hinit : acc_ok (init E) /\ zero_beyond (init E)).
  { split; [apply acc_ok_init | apply zero_beyond_cleared; reflexivity]. }
  split; [exact Hinit |].
  split; [intros b j s r Hacc Hz Hw; exact (Hstep b j s r (conj Hacc Hz) Hw) |].
  split.
  { intros buffer s Hrun.
    eapply (process_samples_inv (fun s => acc_ok s /\ zero_beyond s)); eauto. }
  split.
  { intros ch ch2 s. apply debias_stores_bit. }
  intros j s. pose proof (full_block_frame j s) as Hfr. cbn zeta in Hfr.
  destruct Hfr as (Hbb & _). split; [exact Hbb |].
  apply zero_beyond_cleared. exact Hbb.
Qed.

(** ** The two output paths *)

Lemma xor_block_zero_r (n : nat) : forall (a : list Z),
  length a = n -> xor_block a (replicate n 0) = a.
Proof.
  induction n as [| n IH]; intros [| x a] Hlen; cbn in Hlen; try discriminate;
    try reflexivity.
  unfold xor_block in *. cbn [replicate zip_with].
  rewrite Z.lxor_0_r, IH by lia. reflexivity.
Qed.

(** C1, as the code has it: in whitening mode every accepted block [B] is
    XORed with the retained block [P] ([bitbuffer_old], all zero before the
    first block); the bytes written are [P] as it was before this block,
    and [B XOR P] becomes the retained block.  So for the first accepted
    block [B1] the write is the all-zero block and [B1] is retained; when a
    second block [B2] is accepted the write is [B1] and [B1 XOR B2] is
    retained. *)
Theorem whitening_writes_retained_block (E : Env) (j : Z) (s : state E) :
  env_ok E ->
  gflags_encryption E = 0 ->
  length (bitbuffer s) = BUFFER_SIZE E ->
  length (bitbuffer_old s) = BUFFER_SIZE E ->
  fst (fips_run_rng_test E (fipsctx s) (bitbuffer s)) = 0 ->
  let s1 := snd (full_block j s) in
  output s1 = output s ++ [bitbuffer_old s] /\
  bitbuffer_old s1 = xor_block (bitbuffer s) (bitbuffer_old s) /\
  (bitbuffer_old s = replicate (BUFFER_SIZE E) 0 ->
     output s1 = output s ++ [replicate (BUFFER_SIZE E) 0] /\
     bitbuffer_old s1 = bitbuffer s /\
     forall (j' : Z) (t : state E),
       length (bitbuffer t) = BUFFER_SIZE E ->
       bitbuffer_old t = bitbuffer_old s1 ->
       fst (fips_run_rng_test E (fipsctx t) (bitbuffer t)) = 0 ->
       output (snd (full_block j' t)) = output t ++ [bitbuffer s] /\
       bitbuffer_old (snd (full_block j' t))
         = xor_block (bitbuffer t) (bitbuffer s)).
Proof.
  intros HE Henc Hbb Hold Hpass s1.
  destruct (full_block_whiten j s HE Hbb Hold Hpass Henc) as (_ & Hout & Hprev & _).
  fold s1 in Hout, Hprev.
  split; [exact Hout |]. split; [exact Hprev |].
  intros Hzero.
  assert (Hs1 : bitbuffer_old s1 = bitbuffer s).
  { rewrite Hprev, Hzero. apply xor_block_zero_r. exact Hbb. }
  split; [rewrite Hout, Hzero; reflexivity |].
  split; [exact Hs1 |].
  intros j' t Hbt Hot Hpt.
  assert (Hlt : length (bitbuffer_old t) = BUFFER_SIZE E) by congruence.
  destruct (full_block_whiten j' t HE Hbt Hlt Hpt Henc) as (_ & Hout' & Hprev' & _).
  rewrite Hout', Hprev', Hot, Hs1. split; reflexivity.
Qed.

Lemma whitening_writes_retained_block_witness :
  let s := set_bitbuffer (<[0%nat := 7]> (replicate 2500 0)) (init rtl_whiten) in
  (env_ok rtl_whiten /\
   gflags_encryption rtl_whiten = 0 /\
   length (bitbuffer s) = BUFFER_SIZE rtl_whiten /\
   length (bitbuffer_old s) = BUFFER_SIZE rtl_whiten /\
   fst (fips_run_rng_test rtl_whiten (fipsctx s) (bitbuffer s)) = 0) /\
  output (snd (full_block 0 s)) = output s ++ [bitbuffer_old s].
Proof.
  intros s.
  assert (HE : env_ok rtl_whiten) by (vm_compute; reflexivity).
  assert (Henc : gflags_encryption rtl_whiten = 0) by reflexivity.
  assert (Hbb : length (bitbuffer s) = BUFFER_SIZE rtl_whiten)
    by (vm_compute; reflexivity).
  assert (Hold : length (bitbuffer_old s) = BUFFER_SIZE rtl_whiten)
    by (vm_compute; reflexivity).
  assert (Hpass : fst (fips_run_rng_test rtl_whiten (fipsctx s) (bitbuffer s)) = 0)
    by reflexivity.
  split; [repeat split; assumption |].
  exact (proj1 (whitening_writes_retained_block rtl_whiten 0 s
                  HE Henc Hbb Hold Hpass)).
Defined.

(** The first accepted block of a run in whitening mode: one sample with
    three (1, 0) pairs, then (0, 1) pairs until the "buffer full" branch is
    taken.  The block tested and accepted is [7; 0; ...; 0]; the bytes
    written are the all-zero block, not that block. *)
Lemma whitening_first_write_is_not_first_block :
  exists s,
    process_samples ([21] ++ replicate 6668 42 ++ [42]) (init rtl_whiten) = Ok s /\
    tested s = [7 :: replicate 2499 0] /\
    output s = [replicate 2500 0] /\
    output s <> [7 :: replicate 2499 0] /\
    bitbuffer_old s = 7 :: replicate 2499 0.
Proof.
  eexists. split.
  - rewrite process_samples_app.
    replace (process_samples [21] (init rtl_whiten))
      with (Ok (advance 3 (set_bitbuffer (<[0%nat := 7]> (replicate 2500 0))
                             (init rtl_whiten))))
      by (vm_compute; reflexivity).
    cbn [bind]. rewrite process_samples_app.
    rewrite zero_stream by (vm_compute; try reflexivity; intro; discriminate).
    cbn [bind]. vm_compute. reflexivity.
  - vm_compute. repeat split; try reflexivity. intro H. discriminate H.
Qed.

(** ** Instances of the pool and accumulator theorems *)

Lemma store_hash_data_cursors_in_bounds_witness :
  pool_ok (init rtl_encrypt) /\
  exists s',
    store_bits [1; 0; 0; 1; 1; 0; 1; 0; 1] (init rtl_encrypt) = Ok s' /\
    length (hash_data_buffer s') = SHA512_DIGEST_LENGTH /\
    0 <= hash_data_counter s' < Z.of_nat SHA512_DIGEST_LENGTH /\
    0 <= hash_data_bit_counter s' < 8.
Proof.
  assert (Hok : pool_ok (init rtl_encrypt)).
  { unfold pool_ok. vm_compute. repeat split; try reflexivity; intro; discriminate. }
  split; [exact Hok |].
  exact (proj1 (store_hash_data_cursors_in_bounds rtl_encrypt (init rtl_encrypt)
                  [1; 0; 0; 1; 1; 0; 1; 0; 1] Hok)).
Defined.

Lemma accumulator_clear_beyond_cursor_witness :
  env_ok rtl_whiten /\
  forall buffer (s : state rtl_whiten),
    process_samples buffer (init rtl_whiten) = Ok s -> acc_ok s /\ zero_beyond s.
Proof.
  assert (HE : env_ok rtl_whiten) by (vm_compute; reflexivity).
  split; [exact HE |].
  exact (proj1 (proj2 (proj2 (accumulator_clear_beyond_cursor rtl_whiten HE)))).
Defined.

(** ** The health gate *)

Section Gate.
Context {E : Env}.
Implicit Types s : state E.

(** A bit pair, before the "byte full" test, writes nothing out, logs
    nothing and keeps the previous block and the digest. *)
Lemma debias_frame ch ch2 s s1 :
  debias ch ch2 s = Ok s1 ->
  output s1 = output s /\ logged s1 = logged s /\ tested s1 = tested s /\
  bitbuffer_old s1 = bitbuffer_old s /\ hash_buffer s1 = hash_buffer s /\
  fipsctx s1 = fipsctx s /\
  (hash_loop s1 = 1 \/ hash_loop s1 = hash_loop s).
Proof.
  intros Hd.
  apply debias_cases in Hd as [(_ & _ & ->) | [(_ & _ & _ & ->) | (_ & Hst)]];
    simpl_state; auto 10.
  apply store_hash_data_frame in Hst.
  destruct Hst as (_ & H2 & H3 & _ & _ & H6 & H7 & H8 & H9 & H10). auto 10.
Qed.

Lemma byte_full_frame s :
  output (byte_full s) = output s /\ logged (byte_full s) = logged s /\
  tested (byte_full s) = tested s /\
  bitbuffer_old (byte_full s) = bitbuffer_old s /\
  hash_buffer (byte_full s) = hash_buffer s /\
  fipsctx (byte_full s) = fipsctx s /\
  hash_loop (byte_full s) = hash_loop s /\
  bitbuffer (byte_full s) = bitbuffer s.
Proof.
  unfold byte_full. destruct (8 <=? bitcounter s); simpl_state; auto 10.
Qed.

(** In encrypted mode a bit pair that leaves the flag clear has written
    nothing, and the flag was clear before it. *)
Lemma window_gated b j s r :
  gflags_encryption E <> 0 ->
  window b j s = Ok r ->
  hash_loop (snd r) = 0 ->
  output (snd r) = output s /\ hash_loop s = 0.
Proof.
  intros Henc Hw Hclear.
  apply window_cases in Hw as (s1 & Hd & Hr).
  apply debias_frame in Hd as (Hout & _ & _ & _ & _ & _ & Hloop).
  destruct (byte_full_frame s1) as (Hout2 & _ & _ & _ & _ & _ & Hloop2 & _).
  destruct Hr as [(_ & ->) | (_ & ->)]; simpl_state.
  - pose proof (full_block_frame j (byte_full s1)) as Hfr. cbn zeta in Hfr.
    destruct Hfr as (_ & _ & _ & _ & _ & _ & Hl & _).
    assert (H0 : hash_loop (byte_full s1) = 0) by congruence.
    assert (Hs : hash_loop s = 0) by (destruct Hloop; congruence).
    split; [| exact Hs].
    destruct (Z.eq_dec
                (fst (fips_run_rng_test E (fipsctx (byte_full s1))
                        (bitbuffer (byte_full s1)))) 0) as [Hpass | Hfail].
    + destruct (full_block_encrypt j (byte_full s1) Hpass Henc)
        as (_ & _ & _ & Hno & _).
      destruct (Hno H0) as (-> & _). congruence.
    + destruct (full_block_fail j (byte_full s1) Hfail) as (_ & -> & _).
      congruence.
  - split; [congruence |]. destruct Hloop; congruence.
Qed.

End Gate.

(** C7, as the code has it: a block for which the battery returns a
    failure verdict is written to the output in neither mode; the previous
    block, the digest and the pool are as before, the accumulator is
    cleared with its byte cursor at 0 (and, entered from the sample loop,
    its bit cursor at 0), and the branch returns to the loop.  The failed
    tests named by the verdict are logged only when the program does not
    run detached ([gflags_detach = 0]); detached, nothing is logged. *)
Theorem failed_block_dropped_and_logged_unless_detached (E : Env) (j : Z)
    (s : state E) :
  fst (fips_run_rng_test E (fipsctx s) (bitbuffer s)) <> 0 ->
  let verdict := fst (fips_run_rng_test E (fipsctx s) (bitbuffer s)) in
  let s1 := snd (full_block j s) in
  (output s1 = output s /\
   bitbuffer_old s1 = bitbuffer_old s /\ hash_buffer s1 = hash_buffer s /\
   same_pool s s1 /\
   bitbuffer s1 = replicate (BUFFER_SIZE E) 0 /\ buffercounter s1 = 0) /\
  (gflags_detach E = 0 ->
   logged s1 = logged s ++ failed_tests (fips_test_mask E) 0 verdict) /\
  (gflags_detach E <> 0 -> logged s1 = logged s) /\
  (forall b j' (t : state E) r,
     env_ok E -> acc_ok t -> window b j' t = Ok r ->
     length (tested (snd r)) <> length (tested t) ->
     bitbuffer (snd r) = replicate (BUFFER_SIZE E) 0 /\
     buffercounter (snd r) = 0 /\ bitcounter (snd r) = 0).
Proof.
  intros Hfail verdict s1.
  destruct (full_block_fail j s Hfail) as (_ & Hout & Hold & Hhb & Hlog).
  pose proof (full_block_frame j s) as Hfr. cbn zeta in Hfr.
  destruct Hfr as (Hbb & Hbc & _ & P1 & P2 & P3 & P4 & _).
  fold s1 in Hout, Hold, Hhb, Hlog, Hbb, Hbc, P1, P2, P3, P4.
  fold verdict in Hlog.
  split; [| split; [| split]].
  - unfold same_pool. auto 10.
  - intros Hd. rewrite Hlog, Hd. reflexivity.
  - intros Hd. rewrite Hlog.
    destruct (Z.eqb_spec (gflags_detach E) 0); [contradiction |].
    apply app_nil_r.
  - intros b j' t r HE Hacc Hw Hlen.
    destruct (window_step b j' t r HE Hacc Hw)
      as (_ & [(_ & _ & _ & Ht & _) | [(_ & _ & _ & _ & Ht & _) | H3]]).
    + rewrite Ht in Hlen. contradiction.
    + rewrite Ht in Hlen. contradiction.
    + destruct H3 as (H1 & H2 & _ & _ & _ & H6 & _). auto.
Qed.

Lemma failed_block_dropped_and_logged_unless_detached_witness :
  let s := init rtl_strict in
  fst (fips_run_rng_test rtl_strict (fipsctx s) (bitbuffer s)) <> 0 /\
  (gflags_detach rtl_strict = 0 ->
   logged (snd (full_block 0 s)) =
     logged s ++ failed_tests (fips_test_mask rtl_strict) 0
                   (fst (fips_run_rng_test rtl_strict (fipsctx s) (bitbuffer s)))).
Proof.
  intros s.
  assert (Hfail : fst (fips_run_rng_test rtl_strict (fipsctx s) (bitbuffer s)) <> 0).
  { vm_compute. intro H. discriminate H. }
  split; [exact Hfail |].
  exact (proj1 (proj2 (failed_block_dropped_and_logged_unless_detached
                         rtl_strict 0 s Hfail))).
Defined.

(** A run detached from the terminal: (0, 1) pairs until the "buffer full"
    branch is taken with the all-zero block, which the battery rejects
    naming test 0; nothing is logged. *)
Lemma detached_failure_is_not_logged :
  exists s,
    process_samples (replicate 6669 42 ++ [42]) (init rtl_detached) = Ok s /\
    tested s = [replicate 2500 0] /\
    fst (fips_run_rng_test rtl_detached (fips_init rtl_detached)
           (replicate 2500 0)) = 1 /\
    failed_tests (fips_test_mask rtl_detached) 0 1 = [0%nat] /\
    logged s = [].
Proof.
  eexists. split.
  - rewrite process_samples_app.
    change (init rtl_detached) with (advance 0 (init rtl_detached)).
    rewrite zero_stream by (vm_compute; try reflexivity; intro; discriminate).
    cbn [bind]. vm_compute. reflexivity.
  - vm_compute. repeat split; reflexivity.
Qed.

(** In encrypted mode nothing has been written as long as the flag is
    clear. *)
Lemma encrypted_unprimed_silent (E : Env) (buffer : list Z) (s' : state E) :
  gflags_encryption E <> 0 ->
  process_samples buffer (init E) = Ok s' ->
  hash_loop s' = 0 -> output s' = [].
Proof.
  intros Henc Hrun.
  apply (process_samples_inv (fun t : state E => hash_loop t = 0 -> output t = [])
           ) with (buffer := buffer) (s := init E); auto.
  intros b j0 t r Ht Hw Hclear.
  destruct (window_gated b j0 t r Henc Hw Hclear) as (Hout & H0).
  rewrite Hout. auto.
Qed.

(** C3, as the code has it: in encrypted mode nothing is written while
    [hash_loop] is clear, whatever the samples; and a block that passes the
    health test while [hash_loop] is clear is not kept for later: the
    branch writes nothing, clears the accumulator and leaves the previous
    block, the digest and the pool as they were, so the block is gone. *)
Theorem encrypted_output_waits_for_priming (E : Env) (j : Z) (s : state E) :
  gflags_encryption E <> 0 ->
  (forall buffer (s' : state E),
     process_samples buffer (init E) = Ok s' ->
     hash_loop s' = 0 -> output s' = []) /\
  (fst (fips_run_rng_test E (fipsctx s) (bitbuffer s)) = 0 ->
   hash_loop s = 0 ->
   let s1 := snd (full_block j s) in
   output s1 = output s /\
   bitbuffer s1 = replicate (BUFFER_SIZE E) 0 /\ buffercounter s1 = 0 /\
   bitbuffer_old s1 = bitbuffer_old s /\ hash_buffer s1 = hash_buffer s /\
   same_pool s s1).
Proof.
  intros Henc. split.
  - intros buffer s' Hrun. exact (encrypted_unprimed_silent E buffer s' Henc Hrun).
  - intros Hpass Hclear s1.
    destruct (full_block_encrypt j s Hpass Henc) as (_ & Hold & _ & Hno & _).
    destruct (Hno Hclear) as (Hout & Hhb).
    pose proof (full_block_frame j s) as Hfr. cbn zeta in Hfr.
    destruct Hfr as (Hbb & Hbc & _ & P1 & P2 & P3 & P4 & _).
    unfold same_pool. auto 10.
Qed.

Lemma encrypted_output_waits_for_priming_witness :
  gflags_encryption rtl_encrypt <> 0 /\
  forall buffer (s' : state rtl_encrypt),
    process_samples buffer (init rtl_encrypt) = Ok s' ->
    hash_loop s' = 0 -> output s' = [].
Proof.
  assert (Henc : gflags_encryption rtl_encrypt <> 0).
  { vm_compute. intro H. discriminate H. }
  split; [exact Henc |].
  exact (proj1 (encrypted_output_waits_for_priming rtl_encrypt 0
                  (init rtl_encrypt) Henc)).
Defined.

(** A run in encrypted mode with every block passing the health test.
    The first block, [7; 0; ...; 0], is accepted while [hash_loop] is
    clear; then 513 equal pairs prime the pool; then a second, all-zero
    block is accepted.  The output holds one write, the ciphertext of the
    second block: the first block was never written. *)
Lemma block_accepted_before_priming_is_lost :
  (exists s1,
     process_samples ([21] ++ replicate 6668 42 ++ [42]) (init rtl_encrypt)
       = Ok s1 /\
     tested s1 = [7 :: replicate 2499 0] /\ hash_loop s1 = 0 /\ output s1 = []) /\
  (exists s,
     process_samples
       (([21] ++ replicate 6668 42 ++ [42]) ++
        replicate 171 0 ++ replicate 6668 42 ++ [42]) (init rtl_encrypt)
       = Ok s /\
     tested s = [7 :: replicate 2499 0; replicate 2500 0] /\
     hash_loop s = 1 /\
     output s = [demo_cipher (demo_digest (replicate 64 0)) (replicate 2500 0)]).
Proof.
  pose (X0 := set_bitbuffer (<[0%nat := 7]> (replicate 2500 0)) (init rtl_encrypt)).
  pose (X1 := @mkState rtl_encrypt (replicate 2500 0) (replicate 2500 0)
                (replicate 64 0) (replicate 64 0) 0 0 0 0 0
                (fips_init rtl_encrypt) [] [] [7 :: replicate 2499 0]).
  pose (X2 := @mkState rtl_encrypt (replicate 2500 0) (replicate 2500 0)
                (replicate 64 0) (replicate 64 0) 0 0 0 1 1
                (fips_init rtl_encrypt) [] [] [7 :: replicate 2499 0]).
  assert (Hfirst :
    process_samples ([21] ++ replicate 6668 42 ++ [42]) (init rtl_encrypt)
      = Ok (advance 2 X1)).
  { rewrite process_samples_app.
    replace (process_samples [21] (init rtl_encrypt)) with (Ok (advance 3 X0))
      by (vm_compute; reflexivity).
    cbn [bind]. rewrite process_samples_app.
    rewrite zero_stream by (vm_compute; try reflexivity; intro; discriminate).
    cbn [bind]. vm_compute. reflexivity. }
  split.
  - eexists. split; [exact Hfirst |]. vm_compute. repeat split; reflexivity.
  - eexists. split.
    + rewrite process_samples_app, Hfirst. cbn [bind].
      rewrite process_samples_app.
      replace (process_samples (replicate 171 0) (advance 2 X1))
        with (Ok (advance 2 X2)) by (vm_compute; reflexivity).
      cbn [bind]. rewrite process_samples_app.
      rewrite zero_stream by (vm_compute; try reflexivity; intro; discriminate).
      cbn [bind]. vm_compute. reflexivity.
    + vm_compute. repeat split; reflexivity.
Qed.

(** ** The "buffer full" test *)

(** C2 on the code: the test [buffercounter > BUFFER_SIZE] lets the byte
    cursor reach [BUFFER_SIZE].  After [k] samples [0b101010], with [3 * k]
    bits between one full block and one full block plus seven bits, the
    block has not been handed to the health test and nothing is written;
    the byte cursor stands at [BUFFER_SIZE], one past the last element; and
    one more sample whose first pair reads (1, 0) stores to
    [bitbuffer[BUFFER_SIZE]]. *)
Theorem full_branch_taken_one_byte_late (E : Env) (k : nat) :
  env_ok E ->
  8 * Z.of_nat (BUFFER_SIZE E) <= 3 * Z.of_nat k
    <= 8 * Z.of_nat (BUFFER_SIZE E) + 7 ->
  exists s,
    process_samples (replicate k 42) (init E) = Ok s /\
    8 * buffercounter s + bitcounter s = 3 * Z.of_nat k /\
    buffercounter s = Z.of_nat (BUFFER_SIZE E) /\
    tested s = [] /\ output s = [] /\
    process_samples (replicate k 42 ++ [41]) (init E)
      = Fault (OutOfBounds (Z.of_nat (BUFFER_SIZE E))).
Proof.
  intros HE Hk.
  assert (Hrun : process_samples (replicate k 42) (init E)
                 = Ok (advance (3 * Z.of_nat k) (init E))).
  { change (init E) with (advance 0 (init E)) at 1.
    rewrite zero_stream by (auto; lia). reflexivity. }
  assert (Hbuf : buffercounter (advance (3 * Z.of_nat k) (init E))
                 = Z.of_nat (BUFFER_SIZE E)).
  { unfold advance. simpl_state.
    pose proof (Z.div_mod (3 * Z.of_nat k) 8 ltac:(lia)) as Hd.
    pose proof (Z.mod_pos_bound (3 * Z.of_nat k) 8 ltac:(lia)) as Hm.
    lia. }
  exists (advance (3 * Z.of_nat k) (init E)).
  split; [exact Hrun |]. split.
  { unfold advance. simpl_state.
    pose proof (Z.div_mod (3 * Z.of_nat k) 8 ltac:(lia)) as Hd. lia. }
  split; [exact Hbuf |]. split; [reflexivity |]. split; [reflexivity |].
  rewrite process_samples_app, Hrun. cbn [bind process_samples].
  unfold process_sample. cbn [window_loop Z.leb Z.compare].
  rewrite window_emit1_past_end by (reflexivity || exact Hbuf).
  reflexivity.
Qed.

Lemma full_branch_taken_one_byte_late_witness :
  (env_ok rtl_whiten /\
   8 * Z.of_nat (BUFFER_SIZE rtl_whiten) <= 3 * Z.of_nat 6667
     <= 8 * Z.of_nat (BUFFER_SIZE rtl_whiten) + 7) /\
  exists s,
    process_samples (replicate 6667 42) (init rtl_whiten) = Ok s /\
    8 * buffercounter s + bitcounter s = 3 * Z.of_nat 6667 /\
    buffercounter s = Z.of_nat (BUFFER_SIZE rtl_whiten) /\
    tested s = [] /\ output s = [] /\
    process_samples (replicate 6667 42 ++ [41]) (init rtl_whiten)
      = Fault (OutOfBounds (Z.of_nat (BUFFER_SIZE rtl_whiten))).
Proof.
  assert (HE : env_ok rtl_whiten) by (vm_compute; reflexivity).
  assert (Hk : 8 * Z.of_nat (BUFFER_SIZE rtl_whiten) <= 3 * Z.of_nat 6667
               <= 8 * Z.of_nat (BUFFER_SIZE rtl_whiten) + 7).
  { vm_compute. split; intro H; discriminate H. }
  split; [split; assumption |].
  exact (full_branch_taken_one_byte_late rtl_whiten 6667 HE Hk).
Defined.

(** ** The constant stream [0b101010] *)

Section Constant.
Context {E : Env}.
Implicit Types s : state E.

(** [j] is never negative, and the body only runs for [j < 6]. *)
Lemma window_loop_inv_on (I : state E -> Prop) (b : Z) :
  (forall j s r, 0 <= j < 6 -> I s -> window b j s = Ok r -> I (snd r)) ->
  forall fuel j s s',
    0 <= j -> I s -> window_loop fuel b j s = Ok s' -> I s'.
Proof.
  intros Hstep. induction fuel as [| fuel IH]; intros j s s' Hj HI Hrun;
    cbn [window_loop] in Hrun; destruct (Z.leb_spec 6 j) as [H6 | H6];
    try (inversion Hrun; subst; exact HI); try discriminate.
  destruct (window b j s) as [r | f] eqn:Hw; cbn [bind] in Hrun; [| discriminate].
  eapply IH; [| | exact Hrun].
  - unfold u32. apply Z.mod_pos_bound. lia.
  - eapply Hstep; eauto.
Qed.

Lemma constant_stream_inv (I : state E -> Prop) (b : Z) :
  (forall j s r, 0 <= j < 6 -> I s -> window b j s = Ok r -> I (snd r)) ->
  forall (n : nat) s s',
    I s -> process_samples (replicate n b) s = Ok s' -> I s'.
Proof.
  intros Hstep. induction n as [| n IH]; intros s s' HI Hrun;
    cbn [replicate process_samples] in Hrun.
  - inversion Hrun; subst; exact HI.
  - destruct (process_sample b s) as [s1 | f] eqn:Hp; cbn [bind] in Hrun;
      [| discriminate].
    eapply IH; [| exact Hrun].
    eapply (window_loop_inv_on I b Hstep); [| exact HI | exact Hp]. lia.
Qed.

(** Every pair of adjacent bits of [0b101010], wherever the pair starts,
    is made of two unequal bits. *)
Lemma pairs_of_42_differ (j : Z) :
  0 <= j < 6 -> pair_lo 42 j <> pair_hi 42 j.
Proof.
  intros Hj.
  assert (j = 0 \/ j = 1 \/ j = 2 \/ j = 3 \/ j = 4 \/ j = 5) as Hc by lia.
  destruct Hc as [-> | [-> | [-> | [-> | [-> | ->]]]]]; vm_compute; discriminate.
Qed.

Lemma window_42_ok (j : Z) s :
  acc_ok s -> 0 <= j < 6 ->
  Z.even j = true \/ buffercounter s < Z.of_nat (BUFFER_SIZE E) ->
  exists r, window 42 j s = Ok r.
Proof.
  intros (_ & _ & Hbuf) Hj Hc.
  assert (j = 0 \/ j = 2 \/ j = 4 \/
          ((j = 1 \/ j = 3 \/ j = 5) /\ buffercounter s < Z.of_nat (BUFFER_SIZE E)))
    as Hcases.
  { assert (j = 0 \/ j = 1 \/ j = 2 \/ j = 3 \/ j = 4 \/ j = 5) as Hj' by lia.
    destruct Hj' as [-> | [-> | [-> | [-> | [-> | ->]]]]]; auto;
      destruct Hc as [Hev | Hlt]; try discriminate Hev; auto 10. }
  destruct Hcases as [-> | [-> | [-> | (Hodd & Hlt)]]];
    try (rewrite window_emit0 by reflexivity; eauto).
  assert (Hlo : pair_lo 42 j = 1) by (destruct Hodd as [-> | [-> | ->]]; reflexivity).
  assert (Hhi : pair_hi 42 j = 0) by (destruct Hodd as [-> | [-> | ->]]; reflexivity).
  unfold window, debias. fold (pair_lo 42 j). fold (pair_hi 42 j).
  rewrite Hlo, Hhi. cbn [Z.eqb negb]. rewrite arr_read_in by lia.
  cbn [bind]. destruct (_ <? _); eauto.
Qed.

(** After the report loop has moved [j], the rest of the sample starts a
    fresh block and stays inside its first byte. *)
Lemma window_loop_42_fresh (fuel : nat) : forall (k : nat) j s,
  env_ok E -> (0 < BUFFER_SIZE E)%nat -> acc_ok s -> 0 <= j ->
  buffercounter s = 0 -> bitcounter s + Z.of_nat k <= 7 ->
  6 <= j + 2 * Z.of_nat k -> (k <= fuel)%nat ->
  exists s', window_loop fuel 42 j s = Ok s' /\ acc_ok s'.
Proof.
  induction fuel as [| fuel IH]; intros k j s HE Hpos Hacc Hj Hbuf Hbit Hk Hfuel;
    cbn [window_loop]; destruct (Z.leb_spec 6 j) as [H6 | H6];
    try (exists s; split; [reflexivity | exact Hacc]); try lia.
  destruct (window_42_ok j s Hacc) as (r & Hw); [lia | right; lia |].
  rewrite Hw. cbn [bind].
  destruct (window_step 42 j s r HE Hacc Hw)
    as (Hacc' & [(Hj' & Hbuf' & Hbit' & _) | [(_ & _ & _ & H7 & _) | (_ & _ & H7 & _)]]);
    try lia.
  rewrite Hj', u32_small by lia.
  apply (IH (Nat.pred k)); auto; lia.
Qed.

Lemma window_loop_42_ok (fuel : nat) : forall j s,
  env_ok E -> (0 < BUFFER_SIZE E)%nat -> acc_ok s ->
  j = 0 \/ j = 2 \/ j = 4 \/ 6 <= j ->
  6 <= j + 2 * (Z.of_nat fuel - 3) ->
  exists s', window_loop fuel 42 j s = Ok s' /\ acc_ok s'.
Proof.
  induction fuel as [| fuel IH]; intros j s HE Hpos Hacc Hj Hfuel;
    cbn [window_loop]; destruct (Z.leb_spec 6 j) as [H6 | H6];
    try (exists s; split; [reflexivity | exact Hacc]); try lia.
  destruct (window_42_ok j s Hacc) as (r & Hw);
    [lia | left; destruct Hj as [-> | [-> | [-> | ?]]]; try reflexivity; lia |].
  rewrite Hw. cbn [bind].
  destruct (window_step 42 j s r HE Hacc Hw)
    as (Hacc' & [(Hj' & _) | [(Hj' & _) | (Hbuf' & Hbit' & _ & _ & [Hj' | Hj'] & _)]]).
  - rewrite Hj', u32_small by lia. apply IH; auto; lia.
  - rewrite Hj', u32_small by lia. apply IH; auto; lia.
  - rewrite Hj', u32_small by lia. apply IH; auto; lia.
  - apply (window_loop_42_fresh fuel 3); auto; try lia.
    + unfold u32. apply Z.mod_pos_bound. lia.
    + assert (0 <= u32 (fst r + 2)) by (unfold u32; apply Z.mod_pos_bound; lia).
      lia.
Qed.

(** The loop returns on the constant stream, however long. *)
Lemma constant_stream_returns (n : nat) : forall s,
  env_ok E -> (0 < BUFFER_SIZE E)%nat -> acc_ok s ->
  exists s', process_samples (replicate n 42) s = Ok s' /\ acc_ok s'.
Proof.
  induction n as [| n IH]; intros s HE Hpos Hacc; cbn [replicate process_samples].
  - exists s. auto.
  - destruct (window_loop_42_ok 6 0 s HE Hpos Hacc) as (s1 & Hp & Hacc1);
      [auto | lia |].
    unfold process_sample. rewrite Hp. cbn [bind]. apply IH; auto.
Qed.

(** No pair of the constant stream reaches the pool. *)
Lemma constant_stream_pool (n : nat) s s' :
  process_samples (replicate n 42) s = Ok s' -> same_pool s s'.
Proof.
  apply (constant_stream_inv (fun t => same_pool s t) 42).
  - intros j t r Hj (H1 & H2 & H3 & H4) Hw.
    apply window_pool in Hw as [(_ & (G1 & G2 & G3 & G4)) | (Heq & _)].
    + unfold same_pool. rewrite G1, G2, G3, G4. auto.
    + exfalso. exact (pairs_of_42_differ j Hj Heq).
  - unfold same_pool. auto.
Qed.

End Constant.

(** C8 on the code: every pair of [0b101010] is made of unequal bits, so
    on a stream of such samples the loop returns, the pool is never
    touched, [hash_loop] stays clear and encrypted mode writes nothing,
    however long the stream.  But with [3 * k] bits accumulated, between
    one full block and one full block plus seven bits, nothing has been
    handed to the health test or written in either mode: the branch waits
    for the eighth bit after the block. *)
Theorem constant_stream_101010 (E : Env) (k : nat) :
  env_ok E -> (0 < BUFFER_SIZE E)%nat ->
  8 * Z.of_nat (BUFFER_SIZE E) <= 3 * Z.of_nat k
    <= 8 * Z.of_nat (BUFFER_SIZE E) + 7 ->
  (forall j, 0 <= j < 6 -> pair_lo 42 j <> pair_hi 42 j) /\
  (forall n : nat,
     exists s,
       process_samples (replicate n 42) (init E) = Ok s /\
       same_pool (init E) s /\ hash_loop s = 0 /\
       (gflags_encryption E <> 0 -> output s = [])) /\
  (exists s,
     process_samples (replicate k 42) (init E) = Ok s /\
     8 * buffercounter s + bitcounter s = 3 * Z.of_nat k /\
     tested s = [] /\ output s = []).
Proof.
  intros HE Hpos Hk. split; [exact pairs_of_42_differ |]. split.
  - intros n.
    destruct (constant_stream_returns n (init E) HE Hpos acc_ok_init)
      as (s & Hrun & _).
    pose proof (constant_stream_pool n (init E) s Hrun) as Hpool.
    assert (H0 : hash_loop s = 0) by (destruct Hpool as (_ & _ & _ & ->); reflexivity).
    exists s. split; [exact Hrun |]. split; [exact Hpool |]. split; [exact H0 |].
    intros Henc. exact (encrypted_unprimed_silent E (replicate n 42) s Henc Hrun H0).
  - exists (advance (3 * Z.of_nat k) (init E)). split.
    + change (init E) with (advance 0 (init E)) at 1.
      rewrite zero_stream by (auto; lia). reflexivity.
    + unfold advance. simpl_state.
      pose proof (Z.div_mod (3 * Z.of_nat k) 8 ltac:(lia)) as Hd.
      repeat split; try reflexivity. lia.
Qed.

Lemma constant_stream_101010_witness :
  (env_ok rtl_whiten /\ (0 < BUFFER_SIZE rtl_whiten)%nat /\
   8 * Z.of_nat (BUFFER_SIZE rtl_whiten) <= 3 * Z.of_nat 6667
     <= 8 * Z.of_nat (BUFFER_SIZE rtl_whiten) + 7) /\
  exists s,
    process_samples (replicate 6667 42) (init rtl_whiten) = Ok s /\
    8 * buffercounter s + bitcounter s = 3 * Z.of_nat 6667 /\
    tested s = [] /\ output s = [].
Proof.
  assert (HE : env_ok rtl_whiten) by (vm_compute; reflexivity).
  assert (Hpos : (0 < BUFFER_SIZE rtl_whiten)%nat).
  { change (BUFFER_SIZE rtl_whiten) with 2500%nat. lia. }
  assert (Hk : 8 * Z.of_nat (BUFFER_SIZE rtl_whiten) <= 3 * Z.of_nat 6667
               <= 8 * Z.of_nat (BUFFER_SIZE rtl_whiten) + 7).
  { vm_compute. split; intro H; discriminate H. }
  split; [repeat split; try assumption; apply Hk |].
  exact (proj2 (proj2 (constant_stream_101010 rtl_whiten 6667 HE Hpos Hk))).
Defined.

(** In whitening mode the first write comes with the first pair of sample
    6670, the 20008th bit, and is the all-zero previous block. *)
Lemma whitening_first_write_on_constant_stream :
  exists s,
    process_samples (replicate 6669 42 ++ [42]) (init rtl_whiten) = Ok s /\
    tested s = [replicate 2500 0] /\ output s = [replicate 2500 0].
Proof.
  eexists. split.
  - rewrite process_samples_app.
    change (init rtl_whiten) with (advance 0 (init rtl_whiten)).
    rewrite zero_stream by (vm_compute; try reflexivity; intro; discriminate).
    cbn [bind]. vm_compute. reflexivity.
  - vm_compute. split; reflexivity.
Qed.

(** ** The bit-pair loop and the report loop share [j] *)

(** C5 on the code: each pair that is examined behaves as described: a
    pair of unequal bits leaves the pool alone and, with the cursor inside
    the accumulator, leaves its lower bit at the cursor; a pair of equal
    bits makes one call of [store_hash_data] with the common bit.  But not
    every sample has its three pairs examined.  Sample [0b111110] has the
    pairs (0, 1), (1, 1), (1, 1).  When its first pair completes a block and
    the health test passes, the two equal pairs are stored in the pool.
    When the health test fails, the report loop leaves [j] at
    [N_FIPS_TESTS = 5], the bit-pair loop ends, and the two remaining pairs
    of the sample are never examined: the pool is untouched. *)
Theorem report_loop_skips_remaining_pairs :
  (forall (E : Env) b j (s : state E) r,
     window b j s = Ok r ->
     (pair_lo b j <> pair_hi b j /\ same_pool s (snd r)) \/
     (pair_lo b j = pair_hi b j /\
        exists s1,
          store_hash_data (if pair_lo b j =? 0 then 0 else 1) s = Ok s1 /\
          same_pool s1 (snd r))) /\
  (forall (E : Env) ch ch2 (s : state E),
     acc_ok s -> zero_beyond s ->
     buffercounter s < Z.of_nat (BUFFER_SIZE E) ->
     ch <> ch2 -> ch = 0 \/ ch = 1 ->
     exists s1,
       debias ch ch2 s = Ok s1 /\
       Z.testbit (bitbuffer s1 !!! Z.to_nat (buffercounter s)) (bitcounter s)
         = (ch =? 1) /\
       (ch = 0 -> bitbuffer s1 = bitbuffer s)) /\
  (pair_lo 62 2 = pair_hi 62 2 /\ pair_lo 62 4 = pair_hi 62 4) /\
  (exists s,
     process_samples (replicate 6669 42 ++ [62]) (init rtl_whiten) = Ok s /\
     tested s = [replicate 2500 0] /\ logged s = [] /\
     hash_data_counter s = 0 /\ hash_data_bit_counter s = 2 /\
     hash_data_buffer s = 3 :: replicate 63 0) /\
  (exists s,
     process_samples (replicate 6669 42 ++ [62]) (init rtl_strict) = Ok s /\
     tested s = [replicate 2500 0] /\ logged s = [0%nat] /\
     hash_data_counter s = 0 /\ hash_data_bit_counter s = 0 /\
     hash_data_buffer s = replicate 64 0).
Proof.
  split; [intros E b j s r; apply window_pool |].
  split; [intros E ch ch2 s; apply debias_stores_bit |].
  split; [split; reflexivity |]. split.
  - eexists. split.
    + rewrite process_samples_app.
      change (init rtl_whiten) with (advance 0 (init rtl_whiten)).
      rewrite zero_stream by (vm_compute; try reflexivity; intro; discriminate).
      cbn [bind]. vm_compute. reflexivity.
    + vm_compute. repeat split; reflexivity.
  - eexists. split.
    + rewrite process_samples_app.
      change (init rtl_strict) with (advance 0 (init rtl_strict)).
      rewrite zero_stream by (vm_compute; try reflexivity; intro; discriminate).
      cbn [bind]. vm_compute. reflexivity.
    + vm_compute. repeat split; reflexivity.
Qed.

(** * Further properties of the code *)

(** ** The pool, bit by bit *)

Lemma testbit_clear_bit (old c k : Z) :
  0 <= c -> 0 <= k < 8 ->
  Z.testbit (u8 (Z.land old (Z.lnot (Z.shiftl 1 c)))) k
    = Z.testbit old k && negb (c =? k).
Proof.
  intros Hc Hk. unfold u8.
  rewrite Z.mod_pow2_bits_low by lia.
  rewrite Z.land_spec, Z.lnot_spec, Z.shiftl_1_l, Z.pow2_bits_eqb by lia.
  reflexivity.
Qed.

Section PoolBits.
Context {E : Env}.
Implicit Types s : state E.

(** The byte written by one call. *)
Lemma store_hash_data_buffer bit s s' :
  store_hash_data bit s = Ok s' ->
  0 <= hash_data_counter s < Z.of_nat SHA512_DIGEST_LENGTH /\
  hash_data_buffer s' =
    <[Z.to_nat (hash_data_counter s) :=
        u8 (if bit =? 0
            then Z.land (hash_data_buffer s !!! Z.to_nat (hash_data_counter s))
                   (Z.lnot (Z.shiftl 1 (hash_data_bit_counter s)))
            else Z.lor (hash_data_buffer s !!! Z.to_nat (hash_data_counter s))
                   (Z.shiftl 1 (hash_data_bit_counter s)))]>
      (hash_data_buffer s).
Proof.
  unfold store_hash_data, arr_read. intros H.
  destruct (Z.leb_spec 0 (hash_data_counter s)) as [Hlo | Hlo];
    destruct (Z.ltb_spec (hash_data_counter s) (Z.of_nat SHA512_DIGEST_LENGTH))
      as [Hhi | Hhi]; cbn [andb bind] in H; try discriminate.
  split; [lia |].
  inversion H as [Hs]; clear H Hs.
  repeat match goal with
         | |- context [if ?c then _ else _] =>
             match c with
             | bit =? 0 => fail 1
             | _ => destruct c
             end
         end; simpl_state; reflexivity.
Qed.

Lemma store_hash_data_bits bit s :
  pool_ok s ->
  exists s',
    store_hash_data bit s = Ok s' /\
    pool_bit s' (pool_cursor s) = negb (bit =? 0) /\
    (forall p, 0 <= p < 8 * Z.of_nat SHA512_DIGEST_LENGTH ->
               p <> pool_cursor s -> pool_bit s' p = pool_bit s p).
Proof.
  intros Hok.
  destruct (store_hash_data_step s bit Hok) as (s' & Hrun & _).
  destruct Hok as (Hlen & Hc & Hb).
  destruct (store_hash_data_buffer bit s s' Hrun) as (_ & Hbuf).
  exists s'. split; [exact Hrun |].
  unfold pool_bit, pool_cursor. rewrite Hbuf.
  unfold SHA512_DIGEST_LENGTH in *.
  split.
  - replace ((8 * hash_data_counter s + hash_data_bit_counter s) / 8)
      with (hash_data_counter s)
      by (apply Z.div_unique with (r := hash_data_bit_counter s); lia).
    replace ((8 * hash_data_counter s + hash_data_bit_counter s) mod 8)
      with (hash_data_bit_counter s)
      by (apply Z.mod_unique with (q := hash_data_counter s); lia).
    rewrite list_lookup_total_insert_eq by lia.
    destruct (bit =? 0); cbn [negb].
    + rewrite testbit_clear_bit by lia. rewrite Z.eqb_refl. apply andb_false_r.
    + rewrite testbit_set_bit by lia. rewrite Z.eqb_refl. apply orb_true_r.
  - intros p Hp Hne.
    pose proof (Z.div_mod p 8 ltac:(lia)) as Hd.
    pose proof (Z.mod_pos_bound p 8 ltac:(lia)) as Hm.
    destruct (Z.eq_dec (p / 8) (hash_data_counter s)) as [Heq | Hneq].
    + rewrite Heq. rewrite list_lookup_total_insert_eq by lia.
      assert (Hk : hash_data_bit_counter s <> p mod 8) by lia.
      destruct (bit =? 0).
      * rewrite testbit_clear_bit by lia.
        destruct (Z.eqb_spec (hash_data_bit_counter s) (p mod 8)); [contradiction |].
        apply andb_true_r.
      * rewrite testbit_set_bit by lia.
        destruct (Z.eqb_spec (hash_data_bit_counter s) (p mod 8)); [contradiction |].
        apply orb_false_r.
    + rewrite list_lookup_total_insert_ne by lia. reflexivity.
Qed.

End PoolBits.

Section PoolRing.
Context {E : Env}.
Implicit Types s : state E.

Lemma pool_cursor_range s : pool_ok s -> 0 <= pool_cursor s < 512.
Proof.
  intros (_ & Hc & Hb). unfold pool_cursor, SHA512_DIGEST_LENGTH in *. lia.
Qed.

(** A run of calls leaves alone every bit it does not pass over. *)
Lemma store_bits_frame (bits : list Z) : forall s,
  pool_ok s ->
  exists s',
    store_bits bits s = Ok s' /\ pool_ok s' /\
    pool_cursor s' = (pool_cursor s + Z.of_nat (length bits)) mod 512 /\
    (forall p, 0 <= p < 512 ->
       (forall k, 0 <= k < Z.of_nat (length bits) ->
                  (pool_cursor s + k) mod 512 <> p) ->
       pool_bit s' p = pool_bit s p).
Proof.
  induction bits as [| bit bits IH]; intros s Hok.
  - exists s. cbn [store_bits length]. rewrite Z.add_0_r.
    pose proof (pool_cursor_range s Hok).
    rewrite Z.mod_small by lia. auto.
  - destruct (store_hash_data_step s bit Hok)
      as (s1 & Hrun & Hok1 & Hcur1 & _).
    destruct (store_hash_data_bits bit s Hok) as (s1' & Hrun' & _ & Hother).
    rewrite Hrun in Hrun'. inversion Hrun'; subst s1'. clear Hrun'.
    destruct (IH s1 Hok1) as (s' & Hruns & Hok' & Hcur' & Hframe).
    fold (pool_cursor s1) in Hcur1. fold (pool_cursor s) in Hcur1.
    exists s'. cbn [store_bits length]. rewrite Hrun. cbn [bind].
    split; [exact Hruns |]. split; [exact Hok' |]. split.
    + rewrite Hcur', Hcur1, Z.add_mod_idemp_l by lia.
      f_equal. lia.
    + intros p Hp Hfree.
      rewrite Hframe; auto.
      * apply Hother; [exact Hp |].
        pose proof (pool_cursor_range s Hok) as Hr.
        specialize (Hfree 0 ltac:(lia)).
        rewrite Z.add_0_r, Z.mod_small in Hfree by lia. auto.
      * intros k Hk. rewrite Hcur1, Z.add_mod_idemp_l by lia.
        replace (pool_cursor s + 1 + k) with (pool_cursor s + (k + 1)) by lia.
        apply Hfree. lia.
Qed.

(** Each of the last 512 bits of a run is found where the cursor stood
    when it was stored. *)
Lemma store_bits_content (bits : list Z) : forall s,
  pool_ok s ->
  exists s',
    store_bits bits s = Ok s' /\
    forall k : nat,
      (k < length bits)%nat -> (length bits - k <= 512)%nat ->
      pool_bit s' ((pool_cursor s + Z.of_nat k) mod 512)
        = negb (nth k bits 0 =? 0).
Proof.
  induction bits as [| bit bits IH]; intros s Hok.
  - exists s. split; [reflexivity |]. cbn [length]. intros k Hk. lia.
  - destruct (store_hash_data_step s bit Hok)
      as (s1 & Hrun & Hok1 & Hcur1 & _).
    destruct (store_hash_data_bits bit s Hok) as (s1' & Hrun' & Hbit & _).
    rewrite Hrun in Hrun'. inversion Hrun'; subst s1'. clear Hrun'.
    destruct (IH s1 Hok1) as (s' & Hruns & Hcontent).
    destruct (store_bits_frame bits s1 Hok1) as (s'' & Hruns' & _ & _ & Hframe).
    rewrite Hruns in Hruns'. inversion Hruns'; subst s''. clear Hruns'.
    fold (pool_cursor s1) in Hcur1. fold (pool_cursor s) in Hcur1.
    pose proof (pool_cursor_range s Hok) as Hr.
    exists s'. cbn [store_bits]. rewrite Hrun. cbn [bind].
    split; [exact Hruns |].
    intros [| k] Hk Hlast; cbn [length nth] in *.
    + rewrite Z.add_0_r, Z.mod_small by lia.
      rewrite Hframe; [exact Hbit | lia |].
      intros k Hk'. rewrite Hcur1, Z.add_mod_idemp_l by lia.
      pose proof (Z.div_mod (pool_cursor s + 1 + k) 512 ltac:(lia)) as Hd.
      pose proof (Z.mod_pos_bound (pool_cursor s + 1 + k) 512 ltac:(lia)) as Hm.
      lia.
    + specialize (Hcontent k ltac:(lia) ltac:(lia)).
      rewrite Hcur1, Z.add_mod_idemp_l in Hcontent by lia.
      replace (pool_cursor s + Z.of_nat (S k))
        with (pool_cursor s + 1 + Z.of_nat k) by lia.
      exact Hcontent.
Qed.

End PoolRing.

(** X1: one call of [store_hash_data] with the cursors in range stores its
    argument (as 0 or 1) in the bit under the cursor and changes no other
    bit of the pool, whether the bit is set ([|=]) or cleared ([&= ~]). *)
Theorem store_hash_data_writes_one_bit (E : Env) (s : state E) (bit : Z) :
  pool_ok s ->
  exists s',
    store_hash_data bit s = Ok s' /\
    pool_bit s' (pool_cursor s) = negb (bit =? 0) /\
    (forall p, 0 <= p < 8 * Z.of_nat SHA512_DIGEST_LENGTH ->
               p <> pool_cursor s -> pool_bit s' p = pool_bit s p).
Proof. apply store_hash_data_bits. Qed.

Lemma store_hash_data_writes_one_bit_witness :
  pool_ok (init rtl_encrypt) /\
  exists s',
    store_hash_data 1 (init rtl_encrypt) = Ok s' /\
    pool_bit s' (pool_cursor (init rtl_encrypt)) = negb (1 =? 0).
Proof.
  assert (Hok : pool_ok (init rtl_encrypt)).
  { unfold pool_ok. vm_compute. repeat split; try reflexivity; intro; discriminate. }
  split; [exact Hok |].
  destruct (store_hash_data_writes_one_bit rtl_encrypt (init rtl_encrypt) 1 Hok)
    as (s' & Hrun & Hbit & _).
  exists s'. split; assumption.
Defined.

(** X2: the pool is a ring of the last 512 discarded bits: after any run
    of [store_hash_data] calls from cursors in range, each of the last
    [8 * SHA512_DIGEST_LENGTH] bits stored is found at the position the
    cursor had when it was stored (the start position plus its index,
    modulo 512), older bits having been overwritten. *)
Theorem pool_holds_last_512_bits (E : Env) (s : state E) (bits : list Z) :
  pool_ok s ->
  exists s',
    store_bits bits s = Ok s' /\
    pool_cursor s' = (pool_cursor s + Z.of_nat (length bits)) mod 512 /\
    forall k : nat,
      (k < length bits)%nat -> (length bits - k <= 512)%nat ->
      pool_bit s' ((pool_cursor s + Z.of_nat k) mod 512)
        = negb (nth k bits 0 =? 0).
Proof.
  intros Hok.
  destruct (store_bits_content bits s Hok) as (s' & Hrun & Hcontent).
  destruct (store_bits_frame bits s Hok) as (s'' & Hrun' & _ & Hcur & _).
  rewrite Hrun in Hrun'. inversion Hrun'; subst s''.
  exists s'. auto.
Qed.

Lemma pool_holds_last_512_bits_witness :
  pool_ok (init rtl_encrypt) /\
  exists s',
    store_bits [1; 0; 1] (init rtl_encrypt) = Ok s' /\
    pool_cursor s' =
      (pool_cursor (init rtl_encrypt) + Z.of_nat (length [1; 0; 1])) mod 512.
Proof.
  assert (Hok : pool_ok (init rtl_encrypt)).
  { unfold pool_ok. vm_compute. repeat split; try reflexivity; intro; discriminate. }
  split; [exact Hok |].
  destruct (pool_holds_last_512_bits rtl_encrypt (init rtl_encrypt) [1; 0; 1] Hok)
    as (s' & Hrun & Hcur & _).
  exists s'. split; assumption.
Defined.

(** ** Faults *)

Section Faults.
Context {E : Env}.
Implicit Types s : state E.

(** With both cursors in range the only access a bit pair can make outside
    an array is the store of a 1 at [bitbuffer[BUFFER_SIZE]]. *)
Lemma window_fault_index b j s f :
  acc_ok s -> pool_ok s -> window b j s = Fault f ->
  f = OutOfBounds (Z.of_nat (BUFFER_SIZE E)) /\
  buffercounter s = Z.of_nat (BUFFER_SIZE E) /\
  pair_lo b j <> pair_hi b j /\ pair_lo b j <> 0.
Proof.
  intros (_ & _ & Hbuf) Hpool Hw. unfold window in Hw.
  fold (pair_lo b j) in Hw. fold (pair_hi b j) in Hw.
  destruct (debias (pair_lo b j) (pair_hi b j) s) as [s1 | f1] eqn:Hd;
    cbn [bind] in Hw.
  { destruct (_ <? _); discriminate. }
  inversion Hw; subst f1. clear Hw.
  unfold debias in Hd.
  destruct (Z.eqb_spec (pair_lo b j) (pair_hi b j)) as [Heq | Hne]; cbn [negb] in Hd.
  - exfalso.
    destruct (pair_lo b j =? 0); cbn [negb] in Hd;
      match type of Hd with
      | store_hash_data ?v s = _ =>
          destruct (store_hash_data_step s v Hpool) as (s1 & Hrun & _)
      end; congruence.
  - destruct (Z.eqb_spec (pair_lo b j) 0) as [H0 | H0]; cbn [negb bind] in Hd;
      [discriminate |].
    unfold arr_read in Hd.
    destruct (Z.leb_spec 0 (buffercounter s)) as [Hlo | Hlo]; [| lia].
    destruct (Z.ltb_spec (buffercounter s) (Z.of_nat (BUFFER_SIZE E)))
      as [Hhi | Hhi]; cbn [andb bind] in Hd; [discriminate |].
    assert (Heq : buffercounter s = Z.of_nat (BUFFER_SIZE E)) by lia.
    inversion Hd. rewrite Heq. auto.
Qed.

Lemma window_loop_fault (b : Z) (fuel : nat) : forall j s f,
  env_ok E -> acc_ok s -> pool_ok s ->
  window_loop fuel b j s = Fault f ->
  f = OutOfFuel \/ f = OutOfBounds (Z.of_nat (BUFFER_SIZE E)).
Proof.
  induction fuel as [| fuel IH]; intros j s f HE Hacc Hpool Hrun;
    cbn [window_loop] in Hrun; destruct (6 <=? j); try discriminate.
  - inversion Hrun. auto.
  - destruct (window b j s) as [r | f1] eqn:Hw; cbn [bind] in Hrun.
    + eapply IH; [exact HE | | | exact Hrun].
      * eapply window_step; eauto.
      * eapply window_pool_ok; eauto.
    + inversion Hrun; subst f1. right.
      eapply window_fault_index; eauto.
Qed.

Lemma process_samples_fault (buffer : list Z) : forall s f,
  env_ok E -> acc_ok s -> pool_ok s ->
  process_samples buffer s = Fault f ->
  f = OutOfBounds (Z.of_nat (BUFFER_SIZE E)).
Proof.
  induction buffer as [| b buffer IH]; intros s f HE Hacc Hpool Hrun;
    cbn [process_samples] in Hrun; [discriminate |].
  destruct (process_sample b s) as [s1 | f1] eqn:Hp; cbn [bind] in Hrun.
  - eapply IH; [exact HE | | | exact Hrun].
    + apply (window_loop_inv acc_ok) with (fuel := 6%nat) (b := b) (j := 0) (s := s);
        auto.
      intros b0 j0 s0 r0 H0 Hw. eapply window_step; eauto.
    + apply (window_loop_inv pool_ok) with (fuel := 6%nat) (b := b) (j := 0) (s := s);
        auto.
      intros b0 j0 s0 r0 H0 Hw. eapply window_pool_ok; eauto.
  - inversion Hrun; subst f1.
    destruct (window_loop_fault b 6 0 s f HE Hacc Hpool Hp) as [Hf | Hf];
      [| exact Hf].
    exfalso. subst f. exact (process_sample_fuel b s HE Hacc Hp).
Qed.

End Faults.

(** X3: the only way the sample loop can stop on an access outside an
    array is the store to [bitbuffer[BUFFER_SIZE]], one element past the
    end of the accumulator: started from the initial state, a batch of
    samples either runs through or faults at exactly that index; the pool
    is never indexed out of range and the bit-pair loop never needs more
    than its six iterations. *)
Theorem only_fault_is_accumulator_overrun (E : Env) (buffer : list Z) (f : fault) :
  env_ok E ->
  process_samples buffer (init E) = Fault f ->
  f = OutOfBounds (Z.of_nat (BUFFER_SIZE E)).
Proof.
  intros HE Hrun.
  exact (process_samples_fault buffer (init E) f HE acc_ok_init pool_ok_init Hrun).
Qed.

Lemma only_fault_is_accumulator_overrun_witness :
  let E := demo_env 1 always_pass 0 0 in
  (env_ok E /\ process_samples [21; 21; 21] (init E) = Fault (OutOfBounds 1)) /\
  OutOfBounds 1 = OutOfBounds (Z.of_nat (BUFFER_SIZE E)).
Proof.
  intros E.
  assert (HE : env_ok E) by (vm_compute; reflexivity).
  assert (Hrun : process_samples [21; 21; 21] (init E) = Fault (OutOfBounds 1))
    by (vm_compute; reflexivity).
  split; [split; assumption |].
  exact (only_fault_is_accumulator_overrun E [21; 21; 21] (OutOfBounds 1) HE Hrun).
Defined.

(** ** What is written, against what was tested *)

Lemma xor_block_cancel_r : forall (a b : list Z),
  length a = length b -> xor_block (xor_block a b) b = a.
Proof.
  unfold xor_block.
  induction a as [| x a IH]; intros [| y b] Hlen; cbn in Hlen; try discriminate;
    cbn [zip_with]; [reflexivity |].
  rewrite IH by lia. f_equal.
  rewrite Z.lxor_assoc, Z.lxor_nilpotent. apply Z.lxor_0_r.
Qed.

Lemma length_xor_block (a b : list Z) :
  length a = length b -> length (xor_block a b) = length a.
Proof.
  intros H. unfold xor_block. rewrite length_zip_with. lia.
Qed.

Section Accounting.
Context {E : Env}.
Implicit Types s : state E.

(** The "buffer full" branch writes at most once. *)
Lemma full_block_output j s :
  (fst (fips_run_rng_test E (fipsctx s) (bitbuffer s)) <> 0 /\
   output (snd (full_block j s)) = output s) \/
  (fst (fips_run_rng_test E (fipsctx s) (bitbuffer s)) = 0 /\
   (output (snd (full_block j s)) = output s \/
    exists w, output (snd (full_block j s)) = output s ++ [w])).
Proof.
  destruct (Z.eq_dec (fst (fips_run_rng_test E (fipsctx s) (bitbuffer s))) 0)
    as [Hpass | Hfail].
  - right. split; [exact Hpass |].
    unfold full_block. cbn [run_fips]. cbn zeta. rewrite Hpass. cbn [Z.eqb].
    destruct (negb (gflags_encryption E =? 0)).
    + destruct (negb (_ =? 0)); simpl_state; eauto.
    + match goal with |- context [xor_old ?n ?t] =>
        pose proof (xor_old_frame n t) as Hfr end.
      cbn zeta in Hfr. destruct Hfr as (_&_&_&_&_&_&_&_&_&H10&_).
      simpl_state. rewrite H10. simpl_state. eauto.
  - left. split; [exact Hfail |].
    destruct (full_block_fail j s Hfail) as (_ & Hout & _). exact Hout.
Qed.

(** One bit pair against the replayed gate. *)
Lemma window_gate b j s r :
  window b j s = Ok r ->
  fipsctx s = fst (gate_replay E (tested s)) ->
  (length (output s) <= snd (gate_replay E (tested s)))%nat ->
  fipsctx (snd r) = fst (gate_replay E (tested (snd r))) /\
  (length (output (snd r)) <= snd (gate_replay E (tested (snd r))))%nat.
Proof.
  intros Hw Hctx Hlen.
  apply window_cases in Hw as (s1 & Hd & Hr).
  apply debias_frame in Hd as (Hout & _ & Htst & _ & _ & Hfc & _).
  destruct (byte_full_frame s1) as (Hout2 & _ & Htst2 & _ & _ & Hfc2 & _ & _).
  destruct Hr as [(_ & ->) | (_ & ->)]; simpl_state.
  - pose proof (full_block_frame j (byte_full s1)) as Hfr. cbn zeta in Hfr.
    destruct Hfr as (_ & _ & _ & _ & _ & _ & _ & Ht & Hc & _).
    rewrite Ht, Hc. unfold gate_replay. rewrite fold_left_app. cbn [fold_left].
    fold (gate_replay E (tested (byte_full s1))).
    rewrite Htst2, Htst, Hfc2, Hfc. unfold gate_step. cbn [fst snd].
    rewrite <- Hctx. split; [reflexivity |].
    assert (Hfcs : fipsctx (byte_full s1) = fipsctx s) by congruence.
    destruct (full_block_output j (byte_full s1)) as [(Hv & Ho) | (Hv & [Ho | (w & Ho)])];
      rewrite Hfcs in Hv; rewrite Ho, Hout2, Hout.
    + destruct (_ =? 0); lia.
    + rewrite Hv. cbn [Z.eqb]. lia.
    + rewrite Hv. cbn [Z.eqb]. rewrite length_app. cbn [length]. lia.
  - rewrite Htst2, Htst, Hfc2, Hfc, Hout2, Hout. auto.
Qed.

(** One bit pair against the replay of whitening mode. *)
Lemma window_whiten b j s r :
  env_ok E -> gflags_encryption E = 0 ->
  window b j s = Ok r ->
  acc_ok s -> length (bitbuffer_old s) = BUFFER_SIZE E ->
  (fipsctx s, output s, bitbuffer_old s) = whiten_replay E (tested s) ->
  length (bitbuffer_old (snd r)) = BUFFER_SIZE E /\
  (fipsctx (snd r), output (snd r), bitbuffer_old (snd r))
    = whiten_replay E (tested (snd r)).
Proof.
  intros HE Henc Hw (Hlenb & _) Hleno Hrep.
  apply window_cases in Hw as (s1 & Hd & Hr).
  assert (Hlen1 : length (bitbuffer s1) = BUFFER_SIZE E).
  { apply debias_cases in Hd as [(_ & _ & ->) | [(_ & _ & _ & ->) | (_ & Hst)]];
      simpl_state; rewrite ?length_insert; auto.
    apply store_hash_data_frame in Hst as (-> & _). exact Hlenb. }
  apply debias_frame in Hd as (Hout & _ & Htst & Hold & _ & Hfc & _).
  destruct (byte_full_frame s1) as (Hout2 & _ & Htst2 & Hold2 & _ & Hfc2 & _ & Hbb2).
  destruct Hr as [(_ & ->) | (_ & ->)]; simpl_state.
  - pose proof (full_block_frame j (byte_full s1)) as Hfr. cbn zeta in Hfr.
    destruct Hfr as (_ & _ & _ & _ & _ & _ & _ & Ht & Hc & _).
    rewrite Ht, Hc. unfold whiten_replay. rewrite fold_left_app. cbn [fold_left].
    fold (whiten_replay E (tested (byte_full s1))).
    rewrite Htst2, Htst, <- Hrep. unfold whiten_step. cbn [fst snd].
    rewrite Hfc2, Hfc.
    destruct (Z.eq_dec (fst (fips_run_rng_test E (fipsctx s) (bitbuffer (byte_full s1)))) 0)
      as [Hpass | Hfail].
    + rewrite Hpass. cbn [Z.eqb].
      destruct (full_block_whiten j (byte_full s1) HE) as (_ & Ho & Hp & _); auto;
        try congruence.
      rewrite Ho, Hp, Hout2, Hout, Hold2, Hold.
      split; [| reflexivity].
      rewrite length_xor_block; congruence.
    + destruct (Z.eqb_spec (fst (fips_run_rng_test E (fipsctx s)
                                   (bitbuffer (byte_full s1)))) 0);
        [contradiction |].
      destruct (full_block_fail j (byte_full s1)) as (_ & Ho & Hp & _);
        [congruence |].
      rewrite Ho, Hp, Hout2, Hout, Hold2, Hold. auto.
  - rewrite Htst2, Htst, Hfc2, Hfc, Hout2, Hout, Hold2, Hold. auto.
Qed.

End Accounting.

Section Provenance.
Context {E : Env}.
Implicit Types s : state E.

(** Every block handed to the health test has [BUFFER_SIZE] bytes. *)
Lemma window_tested_length b j s r :
  env_ok E -> window b j s = Ok r ->
  acc_ok s /\ Forall (fun blk => length blk = BUFFER_SIZE E) (tested s) ->
  acc_ok (snd r) /\ Forall (fun blk => length blk = BUFFER_SIZE E) (tested (snd r)).
Proof.
  intros HE Hw (Hacc & Hall).
  split; [eapply window_step; eauto |].
  pose proof Hw as Hw'.
  apply window_cases in Hw as (s1 & Hd & Hr).
  assert (Hlen1 : length (bitbuffer s1) = BUFFER_SIZE E).
  { destruct Hacc as (Hlenb & _).
    apply debias_cases in Hd as [(_ & _ & ->) | [(_ & _ & _ & ->) | (_ & Hst)]];
      simpl_state; rewrite ?length_insert; auto.
    apply store_hash_data_frame in Hst as (-> & _). exact Hlenb. }
  apply debias_frame in Hd as (_ & _ & Htst & _).
  destruct (byte_full_frame s1) as (_ & _ & Htst2 & _ & _ & _ & _ & Hbb2).
  destruct Hr as [(_ & ->) | (_ & ->)]; simpl_state.
  - pose proof (full_block_frame j (byte_full s1)) as Hfr. cbn zeta in Hfr.
    destruct Hfr as (_ & _ & _ & _ & _ & _ & _ & Ht & _).
    rewrite Ht, Htst2, Htst, Hbb2.
    apply Forall_app. split; [exact Hall |].
    constructor; [exact Hlen1 | constructor].
  - rewrite Htst2, Htst. exact Hall.
Qed.

(** In encrypted mode every write is the encryption of a tested block,
    and the retained block is never touched. *)
Lemma window_ciphertexts b j s r :
  gflags_encryption E <> 0 -> window b j s = Ok r ->
  (forall c, In c (output s) ->
     exists blk pool,
       In blk (tested s) /\
       c = aes_encrypt E (aes_init E (SHA512 E pool)) blk) /\
  bitbuffer_old s = bitbuffer_old (init E) ->
  (forall c, In c (output (snd r)) ->
     exists blk pool,
       In blk (tested (snd r)) /\
       c = aes_encrypt E (aes_init E (SHA512 E pool)) blk) /\
  bitbuffer_old (snd r) = bitbuffer_old (init E).
Proof.
  intros Henc Hw (Hprov & Hold0).
  apply window_cases in Hw as (s1 & Hd & Hr).
  apply debias_frame in Hd as (Hout & _ & Htst & Hold & _ & Hfc & _).
  destruct (byte_full_frame s1) as (Hout2 & _ & Htst2 & Hold2 & _ & Hfc2 & _ & Hbb2).
  destruct Hr as [(_ & ->) | (_ & ->)]; simpl_state.
  - pose proof (full_block_frame j (byte_full s1)) as Hfr. cbn zeta in Hfr.
    destruct Hfr as (_ & _ & _ & _ & _ & _ & _ & Ht & _).
    assert (Hkeep : forall c, In c (output s) ->
              exists blk pool,
                In blk (tested (snd (full_block j (byte_full s1)))) /\
                c = aes_encrypt E (aes_init E (SHA512 E pool)) blk).
    { intros c Hc. destruct (Hprov c Hc) as (blk & pool & Hin & Heq).
      exists blk, pool. split; [| exact Heq].
      rewrite Ht, Htst2, Htst. apply in_or_app. auto. }
    destruct (Z.eq_dec
                (fst (fips_run_rng_test E (fipsctx (byte_full s1))
                        (bitbuffer (byte_full s1)))) 0) as [Hpass | Hfail].
    + destruct (full_block_encrypt j (byte_full s1) Hpass Henc)
        as (_ & Hp & _ & Hno & Hyes).
      split; [| congruence].
      destruct (Z.eq_dec (hash_loop (byte_full s1)) 0) as [H0 | H0].
      * destruct (Hno H0) as (Ho & _). rewrite Ho, Hout2, Hout. exact Hkeep.
      * destruct (Hyes H0) as (Ho & _). rewrite Ho, Hout2, Hout.
        intros c Hc. apply in_app_or in Hc as [Hc | [<- | []]]; [auto |].
        exists (bitbuffer (byte_full s1)), (hash_data_buffer (byte_full s1)).
        split; [| reflexivity].
        rewrite Ht. apply in_or_app. right. left. reflexivity.
    + destruct (full_block_fail j (byte_full s1) Hfail) as (_ & Ho & Hp & _).
      split; [| congruence].
      rewrite Ho, Hout2, Hout. exact Hkeep.
  - split; [| congruence].
    rewrite Hout2, Hout, Htst2, Htst. exact Hprov.
Qed.

End Provenance.

(** X4: nothing reaches the output without a passing health test.  In
    either mode, after any batch of samples, the context of the battery is
    the one obtained by running it over the blocks in [tested], in order,
    and the number of writes is at most the number of those blocks it
    passed; every block it was given has exactly [BUFFER_SIZE] bytes. *)
Theorem writes_bounded_by_passed_blocks (E : Env) (buffer : list Z) (s : state E) :
  env_ok E ->
  process_samples buffer (init E) = Ok s ->
  fipsctx s = fst (gate_replay E (tested s)) /\
  (length (output s) <= snd (gate_replay E (tested s)))%nat /\
  Forall (fun blk => length blk = BUFFER_SIZE E) (tested s).
Proof.
  intros HE Hrun.
  assert (H1 : fipsctx s = fst (gate_replay E (tested s)) /\
               (length (output s) <= snd (gate_replay E (tested s)))%nat).
  { apply (process_samples_inv
             (fun t : state E =>
                fipsctx t = fst (gate_replay E (tested t)) /\
                (length (output t) <= snd (gate_replay E (tested t)))%nat))
      with (buffer := buffer) (s := init E); [| split; [reflexivity | cbn; lia] | exact Hrun].
    intros b j t r (Hc & Hl) Hw. eapply window_gate; eauto. }
  assert (H2 : acc_ok s /\ Forall (fun blk => length blk = BUFFER_SIZE E) (tested s)).
  { apply (process_samples_inv
             (fun t : state E =>
                acc_ok t /\ Forall (fun blk => length blk = BUFFER_SIZE E) (tested t)))
      with (buffer := buffer) (s := init E);
      [| split; [apply acc_ok_init | constructor] | exact Hrun].
    intros b j t r Ht Hw. eapply window_tested_length; eauto. }
  destruct H1 as (Hc & Hl). destruct H2 as (_ & Hall). auto.
Qed.

Lemma writes_bounded_by_passed_blocks_witness :
  exists s,
    (env_ok (small_env 0) /\
     process_samples (replicate 9 42) (init (small_env 0)) = Ok s) /\
    (length (output s) <= snd (gate_replay (small_env 0) (tested s)))%nat /\
    tested s = [[0; 0]].
Proof.
  eexists.
  assert (HE : env_ok (small_env 0)) by (vm_compute; reflexivity).
  assert (Hrun : process_samples (replicate 9 42) (init (small_env 0)) = Ok _)
    by (vm_compute; reflexivity).
  split; [split; [exact HE | exact Hrun] |].
  split; [| reflexivity].
  exact (proj1 (proj2 (writes_bounded_by_passed_blocks (small_env 0)
                         (replicate 9 42) _ HE Hrun))).
Defined.

(** X5: in whitening mode the whole output is a function of the blocks
    handed to the health test.  Replaying the battery over [tested] from
    its initial context, writing the retained block and retaining
    [block XOR retained] at every pass and doing nothing at a failure,
    gives exactly the context, the writes (in order) and the retained block
    of the state the loop reaches. *)
Theorem whitening_output_is_replay_of_tested (E : Env) (buffer : list Z)
    (s : state E) :
  env_ok E -> gflags_encryption E = 0 ->
  process_samples buffer (init E) = Ok s ->
  (fipsctx s, output s, bitbuffer_old s) = whiten_replay E (tested s) /\
  length (bitbuffer_old s) = BUFFER_SIZE E.
Proof.
  intros HE Henc Hrun.
  assert (H : acc_ok s /\ length (bitbuffer_old s) = BUFFER_SIZE E /\
              (fipsctx s, output s, bitbuffer_old s) = whiten_replay E (tested s)).
  { apply (process_samples_inv
             (fun t : state E =>
                acc_ok t /\ length (bitbuffer_old t) = BUFFER_SIZE E /\
                (fipsctx t, output t, bitbuffer_old t) = whiten_replay E (tested t)))
      with (buffer := buffer) (s := init E); [| | exact Hrun].
    - intros b j t r (Hacc & Hlen & Hrep) Hw.
      split; [eapply window_step; eauto |].
      eapply window_whiten; eauto.
    - split; [apply acc_ok_init |]. split; [| reflexivity].
      unfold init. simpl_state. apply length_replicate. }
  destruct H as (_ & Hlen & Hrep). auto.
Qed.

Lemma whitening_output_is_replay_of_tested_witness :
  exists s,
    (env_ok (small_env 0) /\ gflags_encryption (small_env 0) = 0 /\
     process_samples ([21] ++ replicate 16 42) (init (small_env 0)) = Ok s) /\
    (fipsctx s, output s, bitbuffer_old s)
      = whiten_replay (small_env 0) (tested s) /\
    tested s = [[7; 0]; [0; 0]] /\ output s = [[0; 0]; [7; 0]].
Proof.
  eexists.
  assert (HE : env_ok (small_env 0)) by (vm_compute; reflexivity).
  assert (Henc : gflags_encryption (small_env 0) = 0) by reflexivity.
  assert (Hrun : process_samples ([21] ++ replicate 16 42) (init (small_env 0)) = Ok _)
    by (vm_compute; reflexivity).
  split; [split; [exact HE | split; [exact Henc | exact Hrun]] |].
  split; [| split; reflexivity].
  exact (proj1 (whitening_output_is_replay_of_tested (small_env 0)
                  ([21] ++ replicate 16 42) _ HE Henc Hrun)).
Defined.

(** X6: whitening can be undone by the reader.  When a block is accepted
    in whitening mode it causes two writes: the retained block at once and,
    when the next block is accepted, the new retained block; the XOR of
    these two consecutive writes is the accepted block, byte for byte. *)
Theorem consecutive_writes_xor_to_block (E : Env) (j j' : Z) (s t : state E) :
  env_ok E -> gflags_encryption E = 0 ->
  length (bitbuffer s) = BUFFER_SIZE E ->
  length (bitbuffer_old s) = BUFFER_SIZE E ->
  fst (fips_run_rng_test E (fipsctx s) (bitbuffer s)) = 0 ->
  length (bitbuffer t) = BUFFER_SIZE E ->
  bitbuffer_old t = bitbuffer_old (snd (full_block j s)) ->
  fst (fips_run_rng_test E (fipsctx t) (bitbuffer t)) = 0 ->
  exists w1 w2,
    output (snd (full_block j s)) = output s ++ [w1] /\
    output (snd (full_block j' t)) = output t ++ [w2] /\
    xor_block w2 w1 = bitbuffer s.
Proof.
  intros HE Henc Hbs Hos Hps Hbt Hot Hpt.
  destruct (full_block_whiten j s HE Hbs Hos Hps Henc) as (_ & Hout & Hprev & _).
  assert (Hlt : length (bitbuffer_old t) = BUFFER_SIZE E).
  { rewrite Hot, Hprev. rewrite length_xor_block; congruence. }
  destruct (full_block_whiten j' t HE Hbt Hlt Hpt Henc) as (_ & Hout' & _).
  exists (bitbuffer_old s), (bitbuffer_old t).
  split; [exact Hout |]. split; [exact Hout' |].
  rewrite Hot, Hprev. apply xor_block_cancel_r. congruence.
Qed.

Lemma consecutive_writes_xor_to_block_witness :
  let s := set_bitbuffer [7; 0] (init (small_env 0)) in
  let t := set_bitbuffer_old [7; 0]
             (set_bitbuffer [1; 2] (init (small_env 0))) in
  (env_ok (small_env 0) /\ gflags_encryption (small_env 0) = 0 /\
   length (bitbuffer s) = BUFFER_SIZE (small_env 0) /\
   length (bitbuffer_old s) = BUFFER_SIZE (small_env 0) /\
   fst (fips_run_rng_test (small_env 0) (fipsctx s) (bitbuffer s)) = 0 /\
   length (bitbuffer t) = BUFFER_SIZE (small_env 0) /\
   bitbuffer_old t = bitbuffer_old (snd (full_block 0 s)) /\
   fst (fips_run_rng_test (small_env 0) (fipsctx t) (bitbuffer t)) = 0) /\
  exists w1 w2,
    output (snd (full_block 0 s)) = output s ++ [w1] /\
    output (snd (full_block 0 t)) = output t ++ [w2] /\
    xor_block w2 w1 = bitbuffer s.
Proof.
  intros s t.
  assert (HE : env_ok (small_env 0)) by (vm_compute; reflexivity).
  assert (Henc : gflags_encryption (small_env 0) = 0) by (vm_compute; reflexivity).
  assert (Hbs : length (bitbuffer s) = BUFFER_SIZE (small_env 0))
    by (vm_compute; reflexivity).
  assert (Hos : length (bitbuffer_old s) = BUFFER_SIZE (small_env 0))
    by (vm_compute; reflexivity).
  assert (Hps : fst (fips_run_rng_test (small_env 0) (fipsctx s) (bitbuffer s)) = 0)
    by (vm_compute; reflexivity).
  assert (Hbt : length (bitbuffer t) = BUFFER_SIZE (small_env 0))
    by (vm_compute; reflexivity).
  assert (Hot : bitbuffer_old t = bitbuffer_old (snd (full_block 0 s)))
    by (vm_compute; reflexivity).
  assert (Hpt : fst (fips_run_rng_test (small_env 0) (fipsctx t) (bitbuffer t)) = 0)
    by (vm_compute; reflexivity).
  split.
  - exact (conj HE (conj Henc (conj Hbs (conj Hos (conj Hps
             (conj Hbt (conj Hot Hpt))))))).
  - exact (consecutive_writes_xor_to_block (small_env 0) 0 0 s t
             HE Henc Hbs Hos Hps Hbt Hot Hpt).
Defined.

(** X7: in encrypted mode every write is a ciphertext of a block that was
    handed to the health test, made by [aes_encrypt] under a key that
    [aes_init] derived from a [SHA512] digest; the retained block of
    whitening mode is never written or changed. *)
Theorem ciphertexts_encrypt_tested_blocks (E : Env) (buffer : list Z)
    (s : state E) :
  gflags_encryption E <> 0 ->
  process_samples buffer (init E) = Ok s ->
  (forall c, In c (output s) ->
     exists blk pool,
       In blk (tested s) /\
       c = aes_encrypt E (aes_init E (SHA512 E pool)) blk) /\
  bitbuffer_old s = replicate (BUFFER_SIZE E) 0.
Proof.
  intros Henc Hrun.
  apply (process_samples_inv
           (fun t : state E =>
              (forall c, In c (output t) ->
                 exists blk pool,
                   In blk (tested t) /\
                   c = aes_encrypt E (aes_init E (SHA512 E pool)) blk) /\
              bitbuffer_old t = bitbuffer_old (init E)))
    with (buffer := buffer) (s := init E); [| | exact Hrun].
  - intros b j t r Ht Hw. eapply window_ciphertexts; eauto.
  - split; [intros c [] | reflexivity].
Qed.

Lemma ciphertexts_encrypt_tested_blocks_witness :
  exists s,
    (gflags_encryption (small_env 1) <> 0 /\
     process_samples (replicate 171 0 ++ replicate 9 42) (init (small_env 1))
       = Ok s) /\
    bitbuffer_old s = replicate (BUFFER_SIZE (small_env 1)) 0 /\
    output s = [[1; 1]].
Proof.
  eexists.
  assert (Henc : gflags_encryption (small_env 1) <> 0).
  { vm_compute. intro H. discriminate H. }
  assert (Hrun : process_samples (replicate 171 0 ++ replicate 9 42)
                   (init (small_env 1)) = Ok _)
    by (vm_compute; reflexivity).
  split; [split; [exact Henc | exact Hrun] |].
  split; [| reflexivity].
  exact (proj2 (ciphertexts_encrypt_tested_blocks (small_env 1)
                  (replicate 171 0 ++ replicate 9 42) _ Henc Hrun)).
Defined.

(** ** The accumulator as the debiased stream *)

Lemma pair_lo_bit (b j : Z) : pair_lo b j = 0 \/ pair_lo b j = 1.
Proof.
  unfold pair_lo.
  assert (H : Z.land (Z.shiftr b j) 1 = Z.shiftr b j mod 2).
  { change 1 with (Z.ones 1). rewrite Z.land_ones by lia. reflexivity. }
  rewrite H.
  pose proof (Z.mod_pos_bound (Z.shiftr b j) 2 ltac:(lia)). lia.
Qed.

Section Refinement.
Context {E : Env}.
Implicit Types s : state E.

(** [store_hash_data] reads and writes the pool fields only. *)
Lemma store_hash_data_cursors bit s s' :
  store_hash_data bit s = Ok s' ->
  let hb := u32 (hash_data_bit_counter s + 1) in
  let hc := if hb =? 8 then u32 (hash_data_counter s + 1)
            else hash_data_counter s in
  hash_data_bit_counter s' = (if hb =? 8 then 0 else hb) /\
  hash_data_counter s' =
    (if hc =? Z.of_nat SHA512_DIGEST_LENGTH then 0 else hc) /\
  hash_loop s' =
    (if hc =? Z.of_nat SHA512_DIGEST_LENGTH then 1 else hash_loop s).
Proof.
  unfold store_hash_data. intros H.
  destruct (arr_read _ _ _) as [old | f]; cbn [bind] in H; [| discriminate].
  inversion H as [Hs]; clear H Hs. cbn zeta. simpl_state.
  destruct (u32 (hash_data_bit_counter s + 1) =? 8); simpl_state;
    destruct (_ =? Z.of_nat SHA512_DIGEST_LENGTH); simpl_state; auto.
Qed.

Lemma store_hash_data_same_pool bit (a b a' : state E) :
  same_pool a b -> store_hash_data bit a = Ok a' ->
  exists b', store_hash_data bit b = Ok b' /\ same_pool a' b'.
Proof.
  intros (H1 & H2 & H3 & H4) Ha.
  destruct (store_hash_data_buffer bit a a' Ha) as (Hin & Hbuf).
  assert (Hb : exists b', store_hash_data bit b = Ok b').
  { unfold store_hash_data. rewrite arr_read_in by (rewrite H2; exact Hin).
    cbn [bind]. eexists. reflexivity. }
  destruct Hb as (b' & Hb). exists b'. split; [exact Hb |].
  destruct (store_hash_data_buffer bit b b' Hb) as (_ & Hbuf').
  pose proof (store_hash_data_cursors bit a a' Ha) as Hca.
  pose proof (store_hash_data_cursors bit b b' Hb) as Hcb.
  cbn zeta in Hca, Hcb.
  destruct Hca as (A1 & A2 & A3). destruct Hcb as (B1 & B2 & B3).
  unfold same_pool.
  rewrite Hbuf', Hbuf, B1, B2, B3, A1, A2, A3, H1, H2, H3, H4. auto.
Qed.

Lemma store_bits_same_pool (bits : list Z) : forall (a b a' : state E),
  same_pool a b -> store_bits bits a = Ok a' ->
  exists b', store_bits bits b = Ok b' /\ same_pool a' b'.
Proof.
  induction bits as [| bit bits IH]; intros a b a' Hab Ha; cbn [store_bits] in *.
  - inversion Ha; subst. eauto.
  - destruct (store_hash_data bit a) as [a1 | f] eqn:Hst; cbn [bind] in Ha;
      [| discriminate].
    destruct (store_hash_data_same_pool bit a b a1 Hab Hst) as (b1 & Hb1 & Hab1).
    rewrite Hb1. cbn [bind]. eapply IH; eauto.
Qed.

Lemma store_bits_app (l1 l2 : list Z) : forall s,
  store_bits (l1 ++ l2) s = (s1 <-- store_bits l1 s ;; store_bits l2 s1).
Proof.
  induction l1 as [| b l1 IH]; intros s; cbn [app store_bits bind].
  - reflexivity.
  - destruct (store_hash_data b s) as [s1 | f]; cbn [bind]; [apply IH | reflexivity].
Qed.

Lemma same_pool_trans (a b c : state E) :
  same_pool a b -> same_pool b c -> same_pool a c.
Proof.
  intros (H1 & H2 & H3 & H4) (G1 & G2 & G3 & G4).
  unfold same_pool. rewrite G1, G2, G3, G4. auto.
Qed.

Lemma extends_refl s :
  acc_ok s -> zero_beyond s -> pool_ok s -> extends s s [] [].
Proof.
  intros Ha Hz Hp. unfold extends. cbn [length store_bits].
  split; [exact Ha |]. split; [exact Hz |]. split; [exact Hp |].
  split; [lia |]. split; [reflexivity |].
  split; [intros i Hi; lia |].
  split; [reflexivity |]. split; [reflexivity |]. split; [reflexivity |].
  exists s. split; [reflexivity |]. unfold same_pool. auto.
Qed.

Lemma extends_trans s s1 s2 em1 di1 em2 di2 :
  0 <= acc_cursor s ->
  extends s s1 em1 di1 -> extends s1 s2 em2 di2 ->
  extends s s2 (em1 ++ em2) (di1 ++ di2).
Proof.
  intros Hc0 (_ & _ & _ & Hc1 & Hlow1 & Hnew1 & Ht1 & Ho1 & Hb1 & p1 & Hp1 & Hs1)
         (Ha & Hz & Hp & Hc2 & Hlow2 & Hnew2 & Ht2 & Ho2 & Hb2 & p2 & Hp2 & Hs2).
  unfold extends.
  split; [exact Ha |]. split; [exact Hz |]. split; [exact Hp |].
  split; [rewrite Hc2, Hc1, length_app; lia |].
  split; [intros k Hk; rewrite Hlow2 by lia; apply Hlow1; exact Hk |].
  split.
  { intros i Hi. rewrite length_app in Hi.
    destruct (Nat.lt_ge_cases i (length em1)) as [Hlt | Hge].
    - rewrite app_nth1 by exact Hlt.
      rewrite Hlow2 by lia. apply Hnew1. exact Hlt.
    - rewrite app_nth2 by exact Hge.
      specialize (Hnew2 (i - length em1)%nat ltac:(lia)).
      rewrite Hc1 in Hnew2.
      replace (acc_cursor s + Z.of_nat (length em1) + Z.of_nat (i - length em1))
        with (acc_cursor s + Z.of_nat i) in Hnew2 by lia.
      exact Hnew2. }
  split; [congruence |]. split; [congruence |]. split; [congruence |].
  destruct (store_bits_same_pool di2 s1 p1 p2) as (q & Hq & Hsq); auto.
  { destruct Hs1 as (H1 & H2 & H3 & H4). unfold same_pool. auto. }
  exists q. rewrite store_bits_app, Hp1. cbn [bind].
  split; [exact Hq |].
  eapply same_pool_trans; [| exact Hs2].
  destruct Hsq as (H1 & H2 & H3 & H4). unfold same_pool. auto.
Qed.

End Refinement.

Section RefinementSteps.
Context {E : Env}.
Implicit Types s : state E.

Lemma acc_bit_at_cursor s :
  0 <= bitcounter s < 8 ->
  acc_bit s (acc_cursor s)
    = Z.testbit (bitbuffer s !!! Z.to_nat (buffercounter s)) (bitcounter s).
Proof.
  intros Hb. unfold acc_bit, acc_cursor.
  replace ((8 * buffercounter s + bitcounter s) / 8) with (buffercounter s)
    by (apply Z.div_unique with (r := bitcounter s); lia).
  replace ((8 * buffercounter s + bitcounter s) mod 8) with (bitcounter s)
    by (apply Z.mod_unique with (q := buffercounter s); lia).
  reflexivity.
Qed.

(** A pair of equal bits: one call of [store_hash_data], nothing else. *)
Lemma window_discards b j s :
  acc_ok s -> zero_beyond s -> pool_ok s ->
  pair_lo b j = pair_hi b j ->
  exists s',
    window b j s = Ok (j, s') /\
    extends s s' [] [pair_lo b j].
Proof.
  intros Hacc Hz Hpool Heq.
  destruct (store_hash_data_step s (if pair_lo b j =? 0 then 0 else 1) Hpool)
    as (s1 & Hrun & Hpool1 & _ & _ & Hbb & Hold & _ & Hbit & Hbuf & _ & Hout & _ & Htst).
  assert (Hlo : (if pair_lo b j =? 0 then 0 else 1) = pair_lo b j).
  { destruct (pair_lo_bit b j) as [-> | ->]; reflexivity. }
  destruct Hacc as (Hlen & Hbitr & Hbufr).
  assert (Hw : window b j s = Ok (j, s1)).
  { unfold window, debias. fold (pair_lo b j). fold (pair_hi b j).
    rewrite <- Heq, Z.eqb_refl. cbn [negb].
    replace (if negb (pair_lo b j =? 0) then store_hash_data 1 s
             else store_hash_data 0 s)
      with (store_hash_data (if pair_lo b j =? 0 then 0 else 1) s)
      by (destruct (pair_lo b j =? 0); reflexivity).
    rewrite Hrun. cbn [bind]. unfold byte_full. rewrite Hbit.
    destruct (Z.leb_spec 8 (bitcounter s)); [lia |].
    rewrite Hbuf.
    destruct (Z.ltb_spec (Z.of_nat (BUFFER_SIZE E)) (buffercounter s)); [lia |].
    reflexivity. }
  exists s1. split; [exact Hw |].
  unfold extends. cbn [length].
  split; [unfold acc_ok; rewrite Hbb, Hbit, Hbuf; auto |].
  split.
  { intros i k Hi Hk Hpos. rewrite Hbb. rewrite Hbit, Hbuf in Hpos. auto. }
  split; [exact Hpool1 |].
  split; [unfold acc_cursor; rewrite Hbit, Hbuf; lia |].
  split; [intros k Hk; unfold acc_bit; rewrite Hbb; reflexivity |].
  split; [intros i Hi; lia |].
  split; [exact Htst |]. split; [exact Hout |]. split; [exact Hold |].
  exists s1. cbn [store_bits]. rewrite <- Hlo at 1. rewrite Hrun. cbn [bind].
  split; [reflexivity |]. unfold same_pool. auto.
Qed.

(** A pair of unequal bits, with room left in the accumulator: its lower
    bit is appended, nothing else changes. *)
Lemma window_emits b j s :
  env_ok E -> acc_ok s -> zero_beyond s -> pool_ok s ->
  pair_lo b j <> pair_hi b j ->
  acc_cursor s + 1 <= 8 * Z.of_nat (BUFFER_SIZE E) ->
  exists s',
    window b j s = Ok (j, s') /\
    extends s s' [pair_lo b j] [].
Proof.
  intros HE Hacc Hz Hpool Hne Hroom.
  pose proof Hacc as (Hlen & Hbitr & Hbufr).
  assert (Hin : buffercounter s < Z.of_nat (BUFFER_SIZE E))
    by (unfold acc_cursor in Hroom; lia).
  destruct (debias_stores_bit (pair_lo b j) (pair_hi b j) s Hacc Hz Hin Hne
              (pair_lo_bit b j)) as (s1 & Hd & Hstored & Hzero).
  assert (Hs1 : buffercounter s1 = buffercounter s /\
                bitcounter s1 = bitcounter s + 1 /\
                length (bitbuffer s1) = BUFFER_SIZE E /\
                forall k, 0 <= k < acc_cursor s ->
                  Z.testbit (bitbuffer s1 !!! Z.to_nat (k / 8)) (k mod 8)
                    = acc_bit s k).
  { pose proof Hd as Hd'.
    apply debias_cases in Hd' as [(_ & _ & ->) | [(_ & _ & _ & ->) | (Heq & _)]];
      [| | contradiction]; simpl_state; rewrite ?u32_small by lia.
    - repeat split; auto.
    - rewrite length_insert. repeat split; auto.
      intros k Hk. unfold acc_bit, acc_cursor in *.
      pose proof (Z.div_mod k 8 ltac:(lia)) as Hdm.
      pose proof (Z.mod_pos_bound k 8 ltac:(lia)) as Hmb.
      rewrite list_lookup_total_insert. case_decide as Hdec.
      + destruct Hdec as [Hidx _].
        assert (k / 8 = buffercounter s) by lia.
        rewrite testbit_set_bit by lia.
        destruct (Z.eqb_spec (bitcounter s) (k mod 8)); [lia |].
        rewrite orb_false_r. rewrite Hidx. reflexivity.
      + reflexivity. }
  destruct Hs1 as (Hbuf1 & Hbit1 & Hlen1 & Hlow1).
  unfold env_ok in HE.
  assert (Hbf : buffercounter (byte_full s1) <= Z.of_nat (BUFFER_SIZE E) /\
                acc_cursor (byte_full s1) = acc_cursor s + 1).
  { unfold byte_full, acc_cursor.
    destruct (Z.leb_spec 8 (bitcounter s1)); simpl_state;
      rewrite ?u32_small by lia; lia. }
  destruct Hbf as (Hbfle & Hbfc).
  assert (Hw : window b j s = Ok (j, byte_full s1)).
  { unfold window. fold (pair_lo b j). fold (pair_hi b j). rewrite Hd.
    cbn [bind]. cbn zeta.
    destruct (Z.ltb_spec (Z.of_nat (BUFFER_SIZE E)) (buffercounter (byte_full s1)));
      [lia | reflexivity]. }
  exists (byte_full s1). split; [exact Hw |].
  destruct (byte_full_frame s1) as (Hout2 & _ & Htst2 & Hold2 & _ & _ & _ & Hbb2).
  apply debias_frame in Hd as (Hout & _ & Htst & Hold & _).
  unfold extends. cbn [length].
  split; [exact (proj1 (window_step b j s _ HE Hacc Hw)) |].
  split; [exact (window_zero_beyond b j s _ HE Hacc Hz Hw) |].
  split; [exact (window_pool_ok b j s _ Hpool Hw) |].
  split; [rewrite Hbfc; lia |].
  split; [intros k Hk; unfold acc_bit at 1; rewrite Hbb2; apply Hlow1; exact Hk |].
  split.
  { intros [| i] Hi; [| lia]. cbn [nth]. rewrite Z.add_0_r.
    unfold acc_bit. rewrite Hbb2. fold (acc_bit s1 (acc_cursor s)).
    unfold acc_bit, acc_cursor.
    replace ((8 * buffercounter s + bitcounter s) / 8) with (buffercounter s)
      by (apply Z.div_unique with (r := bitcounter s); lia).
    replace ((8 * buffercounter s + bitcounter s) mod 8) with (bitcounter s)
      by (apply Z.mod_unique with (q := buffercounter s); lia).
    exact Hstored. }
  split; [congruence |]. split; [congruence |]. split; [congruence |].
  exists s. cbn [store_bits]. split; [reflexivity |].
  apply window_pool in Hw as [(_ & Hs) | (Heq & _)]; [exact Hs | contradiction].
Qed.

(** One bit pair, whichever it is. *)
Lemma window_extends b j s :
  env_ok E -> acc_ok s -> zero_beyond s -> pool_ok s ->
  acc_cursor s
    + Z.of_nat (length (emitted_of_pair (pair_lo b j, pair_hi b j)))
    <= 8 * Z.of_nat (BUFFER_SIZE E) ->
  exists s',
    window b j s = Ok (j, s') /\
    extends s s' (emitted_of_pair (pair_lo b j, pair_hi b j))
      (discarded_of_pair (pair_lo b j, pair_hi b j)).
Proof.
  unfold emitted_of_pair, discarded_of_pair. cbn [fst snd].
  intros HE Hacc Hz Hpool Hroom.
  destruct (Z.eqb_spec (pair_lo b j) (pair_hi b j)) as [Heq | Hne].
  - apply window_discards; auto.
  - cbn [length] in Hroom. apply window_emits; auto; lia.
Qed.

(** One sample: its three pairs in order. *)
Lemma sample_extends b s :
  env_ok E -> acc_ok s -> zero_beyond s -> pool_ok s ->
  acc_cursor s + Z.of_nat (length (flat_map emitted_of_pair (pairs_of b)))
    <= 8 * Z.of_nat (BUFFER_SIZE E) ->
  exists s',
    process_sample b s = Ok s' /\
    extends s s' (flat_map emitted_of_pair (pairs_of b))
      (flat_map discarded_of_pair (pairs_of b)).
Proof.
  intros HE Hacc Hz Hpool. unfold pairs_of. cbn [flat_map].
  rewrite !app_nil_r, !length_app. intros Hroom.
  assert (Hc0 : 0 <= acc_cursor s).
  { destruct Hacc as (_ & ? & ?). unfold acc_cursor. lia. }
  destruct (window_extends b 0 s HE Hacc Hz Hpool) as (s1 & Hw1 & Hx1); [lia |].
  pose proof Hx1 as (Hacc1 & Hz1 & Hpool1 & Hc1 & _).
  destruct (window_extends b 2 s1 HE Hacc1 Hz1 Hpool1) as (s2 & Hw2 & Hx2); [lia |].
  pose proof Hx2 as (Hacc2 & Hz2 & Hpool2 & Hc2 & _).
  destruct (window_extends b 4 s2 HE Hacc2 Hz2 Hpool2) as (s3 & Hw3 & Hx3); [lia |].
  exists s3. split.
  - unfold process_sample. cbn [window_loop Z.leb Z.compare].
    rewrite Hw1. cbn [bind fst snd]. change (u32 (0 + 2)) with 2.
    cbn [window_loop Z.leb Z.compare Pos.compare Pos.compare_cont].
    rewrite Hw2. cbn [bind fst snd]. change (u32 (2 + 2)) with 4.
    cbn [window_loop Z.leb Z.compare Pos.compare Pos.compare_cont].
    rewrite Hw3. cbn [bind fst snd]. change (u32 (4 + 2)) with 6.
    reflexivity.
  - eapply extends_trans; [exact Hc0 | exact Hx1 |].
    eapply extends_trans; [lia | exact Hx2 | exact Hx3].
Qed.

(** A batch of samples. *)
Lemma samples_extend (samples : list Z) : forall s,
  env_ok E -> acc_ok s -> zero_beyond s -> pool_ok s ->
  acc_cursor s + Z.of_nat (length (debiased samples))
    <= 8 * Z.of_nat (BUFFER_SIZE E) ->
  exists s',
    process_samples samples s = Ok s' /\
    extends s s' (debiased samples) (discards samples).
Proof.
  induction samples as [| b samples IH]; intros s HE Hacc Hz Hpool Hroom.
  - exists s. split; [reflexivity |]. apply extends_refl; auto.
  - unfold debiased, discards in *. cbn [flat_map] in *.
    rewrite !flat_map_app in *. rewrite length_app in Hroom.
    assert (Hc0 : 0 <= acc_cursor s).
    { destruct Hacc as (_ & ? & ?). unfold acc_cursor. lia. }
    destruct (sample_extends b s HE Hacc Hz Hpool) as (s1 & Hp & Hx1); [lia |].
    pose proof Hx1 as (Hacc1 & Hz1 & Hpool1 & Hc1 & _).
    destruct (IH s1 HE Hacc1 Hz1 Hpool1) as (s' & Hrun & Hx2); [lia |].
    exists s'. cbn [process_samples]. rewrite Hp. cbn [bind].
    split; [exact Hrun |].
    eapply extends_trans; eauto.
Qed.

End RefinementSteps.

(** X8: until a block is complete the accumulator is the von Neumann
    stream of the samples.  For a batch whose pairs of unequal bits number
    at most [8 * BUFFER_SIZE], the loop runs through from the initial
    state; the write cursor stands after as many bits as there are such
    pairs; bit [k] of the accumulator (byte [k / 8], bit [k mod 8]) is the
    lower bit of the [k]-th such pair; nothing has been tested or written;
    and the pool is what storing the common bits of the pairs of equal
    bits, in order, makes of it. *)
Theorem accumulator_is_debiased_stream (E : Env) (samples : list Z) :
  env_ok E ->
  Z.of_nat (length (debiased samples)) <= 8 * Z.of_nat (BUFFER_SIZE E) ->
  exists s,
    process_samples samples (init E) = Ok s /\
    acc_cursor s = Z.of_nat (length (debiased samples)) /\
    (forall k : nat,
       (k < length (debiased samples))%nat ->
       acc_bit s (Z.of_nat k) = (nth k (debiased samples) 0 =? 1)) /\
    tested s = [] /\ output s = [] /\
    exists p, store_bits (discards samples) (init E) = Ok p /\ same_pool p s.
Proof.
  intros HE Hroom.
  destruct (samples_extend samples (init E) HE acc_ok_init
              (zero_beyond_cleared (init E) eq_refl) pool_ok_init)
    as (s & Hrun & Hx).
  { change (acc_cursor (init E)) with 0. lia. }
  destruct Hx as (_ & _ & _ & Hc & _ & Hnew & Ht & Ho & _ & Hp).
  change (acc_cursor (init E)) with 0 in Hc, Hnew.
  exists s. split; [exact Hrun |]. split; [lia |].
  split; [intros k Hk; rewrite <- (Hnew k Hk); f_equal; lia |].
  auto.
Qed.

Lemma accumulator_is_debiased_stream_witness :
  let E := small_env 0 in
  (env_ok E /\
   Z.of_nat (length (debiased [21; 0; 42; 63; 37])) <= 8 * Z.of_nat (BUFFER_SIZE E)) /\
  exists s,
    process_samples [21; 0; 42; 63; 37] (init E) = Ok s /\
    acc_cursor s = Z.of_nat (length (debiased [21; 0; 42; 63; 37])).
Proof.
  intros E.
  assert (HE : env_ok E) by (vm_compute; reflexivity).
  assert (Hroom : Z.of_nat (length (debiased [21; 0; 42; 63; 37]))
                  <= 8 * Z.of_nat (BUFFER_SIZE E)).
  { vm_compute. intro H. discriminate H. }
  split; [split; assumption |].
  destruct (accumulator_is_debiased_stream E [21; 0; 42; 63; 37] HE Hroom)
    as (s & Hrun & Hc & _).
  exists s. split; assumption.
Defined.

(** ** The loop around the batch *)

Section Control.
Context {E : Env}.

Lemma read_do_exit_spec (c : control) :
  real_signals c ->
  let r := read_do_exit c in
  real_signals (snd r) /\ events (snd r) = events c /\
  fst r = do_exit (snd r) /\
  (do_exit c <> 0 -> fst r <> 0) /\
  (signals c = [] -> snd r = c).
Proof.
  unfold real_signals, read_do_exit. intros Hsig.
  destruct (signals c) as [| [signum |] rest] eqn:Hs;
    cbn [fst snd sighandler do_exit signals events].
  - rewrite Hs. auto.
  - inversion Hsig as [| ? ? Hhd Htl]; subst.
    split; [exact Htl |]. split; [reflexivity |]. split; [reflexivity |].
    split; [| discriminate].
    intros _ H0. apply Hhd. rewrite H0. reflexivity.
  - inversion Hsig as [| ? ? Hhd Htl]; subst.
    split; [exact Htl |]. split; [reflexivity |]. split; [reflexivity |].
    split; [auto | discriminate].
Qed.

Lemma emit_spec evs (c : control) :
  real_signals c ->
  real_signals (emit evs c) /\ do_exit (emit evs c) = do_exit c /\
  events (emit evs c) = events c ++ evs.
Proof. unfold real_signals, emit. cbn. auto. Qed.

(** The loop test: when it fails, a signal has been seen. *)
Lemma loop_test_spec (c : control) :
  real_signals c ->
  let r := loop_test c in
  real_signals (snd r) /\ events (snd r) = events c /\
  (fst r = false -> do_exit (snd r) <> 0).
Proof.
  intros Hsig. unfold loop_test.
  pose proof (read_do_exit_spec c Hsig) as H1. cbn zeta in H1.
  destruct (read_do_exit c) as [v1 c1]. cbn [fst snd] in H1.
  destruct H1 as (Hs1 & He1 & Hv1 & _).
  destruct (Z.eqb_spec v1 0) as [H0 | H0]; cbn [fst snd].
  - repeat split; auto; discriminate.
  - pose proof (read_do_exit_spec c1 Hs1) as H2. cbn zeta in H2.
    destruct (read_do_exit c1) as [v2 c2]. cbn [fst snd] in *.
    destruct H2 as (Hs2 & He2 & Hv2 & Hnz & _).
    repeat split; auto; try congruence.
    intros _. rewrite <- Hv2. apply Hnz. congruence.
Qed.

(** What comes before the batch: nothing unless [SIGPIPE] is seen; then
    the close, and either the reopening or the [break]. *)
Lemma loop_head_spec (c : control) :
  real_signals c ->
  let r := loop_head E c in
  real_signals (snd r) /\
  ((fst r = true /\ events (snd r) = events c) \/
   (fst r = true /\ gflags_detach E <> 0 /\
      events (snd r) = events c
        ++ [LogReaderGone; FcloseOutput; LogWaiting; FopenFifo]) \/
   (fst r = false /\ gflags_detach E = 0 /\ do_exit (snd r) <> 0 /\
      events (snd r) = events c ++ [LogReaderGone; FcloseOutput])).
Proof.
  intros Hsig. unfold loop_head.
  pose proof (read_do_exit_spec c Hsig) as H1. cbn zeta in H1.
  destruct (read_do_exit c) as [v c1]. cbn [fst snd] in H1.
  destruct H1 as (Hs1 & He1 & Hv1 & _).
  destruct (Z.eqb_spec v SIGPIPE) as [Hp | Hp]; cbn [fst snd].
  - destruct (Z.eqb_spec (gflags_detach E) 0) as [Hd | Hd]; cbn [negb fst snd].
    + split; [apply emit_spec; exact Hs1 |].
      right; right. unfold emit at 1 2. cbn [do_exit events].
      rewrite He1. repeat split; auto.
      rewrite <- Hv1, Hp. discriminate.
    + split; [apply emit_spec; apply emit_spec; exact Hs1 |].
      right; left. unfold emit. cbn [events].
      rewrite He1, <- app_assoc. auto.
  - auto.
Qed.

(** However the loop is left, a signal has been seen by then, and the only
    calls made in a pass that ends the loop are those of the [break]. *)
Lemma main_loop_left (buffer : list Z) (fuel : nat) :
  forall (c : control) (s : state E) c' s',
    real_signals c ->
    main_loop E buffer fuel c s = LeftLoop c' s' ->
    real_signals c' /\ do_exit c' <> 0 /\
    exists evs,
      events c' = events c ++ evs /\
      (gflags_detach E = 0 ->
       evs = [] \/ evs = [LogReaderGone; FcloseOutput]) /\
      ~ In LogLibraryError evs /\ ~ In LogUserCancel evs.
Proof.
  induction fuel as [| fuel IH]; intros c s c' s' Hsig Hrun;
    cbn [main_loop] in Hrun; [discriminate |].
  pose proof (loop_test_spec c Hsig) as Ht. cbn zeta in Ht.
  destruct (loop_test c) as [enter c1]. cbn [fst snd] in Ht.
  destruct Ht as (Hs1 & He1 & Hleft).
  destruct enter.
  - pose proof (loop_head_spec c1 Hs1) as Hh. cbn zeta in Hh.
    destruct (loop_head E c1) as [go_on c2]. cbn [fst snd] in Hh.
    destruct Hh as (Hs2 & Hcases).
    destruct go_on.
    + destruct (process_samples buffer s) as [s1 | f]; [| discriminate].
      destruct (IH c2 s1 c' s' Hs2 Hrun) as (Hs' & Hnz & evs & Hev & Hone & Hno1 & Hno2).
      split; [exact Hs' |]. split; [exact Hnz |].
      destruct Hcases as [(_ & He2) | [(_ & Hd & He2) | (Hf & _)]];
        [| | discriminate].
      * exists evs. rewrite Hev, He2, He1. auto.
      * exists ([LogReaderGone; FcloseOutput; LogWaiting; FopenFifo] ++ evs).
        rewrite Hev, He2, He1, <- app_assoc.
        split; [reflexivity |]. split; [intros H0; contradiction |].
        split; intros Hin; apply in_app_or in Hin as [Hin | Hin];
          try contradiction;
          cbn in Hin; intuition discriminate.
    + inversion Hrun; subst c2 s'. clear Hrun.
      destruct Hcases as [(Hf & _) | [(Hf & _) | (_ & Hd & Hnz & He2)]];
        try discriminate.
      split; [exact Hs2 |]. split; [exact Hnz |].
      exists [LogReaderGone; FcloseOutput]. rewrite He2, He1.
      split; [reflexivity |]. split; [auto |].
      split; intros Hin; cbn in Hin; intuition discriminate.
  - inversion Hrun; subst c1 s'. clear Hrun.
    split; [exact Hs1 |]. split; [apply Hleft; reflexivity |].
    exists []. rewrite app_nil_r.
    split; [exact He1 |]. split; [auto |]. split; intros [].
Qed.

Lemma epilogue_spec (c : control) :
  real_signals c -> do_exit c <> 0 ->
  events (epilogue c)
    = events c ++ [LogUserCancel; CloseDevice; FreeBuffer; FcloseOutput].
Proof.
  intros Hsig Hnz. unfold epilogue.
  pose proof (read_do_exit_spec c Hsig) as H1. cbn zeta in H1.
  destruct (read_do_exit c) as [v c1]. cbn [fst snd] in H1.
  destruct H1 as (_ & He1 & _ & Hv & _).
  destruct (Z.eqb_spec v 0) as [H0 | H0]; [exfalso; apply Hv; auto |].
  unfold emit. cbn [events]. rewrite He1. reflexivity.
Qed.

End Control.

(** X9: the loop is only ever left with a signal seen, so the end of
    [main] always logs "User cancel" and its "Library error" branch is
    dead: whatever signals arrive and whenever, a run that leaves the loop
    ends with the user-cancel line, the closing of the device, the freeing
    of the buffer and the closing of the output, and no library-error line
    is logged on the way. *)
Theorem end_of_main_always_logs_user_cancel (E : Env) (buffer : list Z)
    (fuel : nat) (c c' : control) (s s' : state E) :
  real_signals c ->
  main_from_loop E buffer fuel c s = Some (c', s') ->
  exists evs,
    events c' = events c ++ evs
      ++ [LogUserCancel; CloseDevice; FreeBuffer; FcloseOutput] /\
    ~ In LogLibraryError evs /\ ~ In LogUserCancel evs.
Proof.
  intros Hsig Hrun. unfold main_from_loop in Hrun.
  destruct (main_loop E buffer fuel c s) as [c1 s1 | c1 s1 | f c1] eqn:Hloop;
    try discriminate.
  inversion Hrun; subst c' s'. clear Hrun.
  destruct (main_loop_left buffer fuel c s c1 s1 Hsig Hloop)
    as (Hs1 & Hnz & evs & Hev & _ & Hno1 & Hno2).
  exists evs. rewrite (epilogue_spec c1 Hs1 Hnz), Hev, <- app_assoc. auto.
Qed.

Lemma end_of_main_always_logs_user_cancel_witness :
  let E := small_env 0 in
  let c := mkControl 0 [None; None; Some 2] [] in
  exists c' s',
    (real_signals c /\ main_from_loop E [42] 3 c (init E) = Some (c', s')) /\
    events c' = [LogUserCancel; CloseDevice; FreeBuffer; FcloseOutput].
Proof.
  intros E c. eexists. eexists.
  assert (Hsig : real_signals c).
  { repeat constructor; discriminate. }
  assert (Hrun : main_from_loop E [42] 3 c (init E) = Some (_, _))
    by (vm_compute; reflexivity).
  split; [split; [exact Hsig | exact Hrun] |].
  destruct (end_of_main_always_logs_user_cancel E [42] 3 c _ (init E) _ Hsig Hrun)
    as (evs & Hev & _).
  reflexivity.
Defined.

(** X10: when the program does not run detached and the reader goes away,
    the output is closed twice.  In that mode a run that leaves the loop
    has made, since the loop started, either just the calls of the end of
    [main] (a signal other than [SIGPIPE] was seen at the loop test), or
    the close of the [SIGPIPE] branch followed by the calls of the end of
    [main], whose last one closes the same stream again, nothing having
    reopened it. *)
Theorem reader_gone_closes_output_twice (E : Env) (buffer : list Z)
    (fuel : nat) (c c' : control) (s s' : state E) :
  gflags_detach E = 0 ->
  real_signals c ->
  main_from_loop E buffer fuel c s = Some (c', s') ->
  events c' = events c
    ++ [LogUserCancel; CloseDevice; FreeBuffer; FcloseOutput] \/
  events c' = events c
    ++ [LogReaderGone; FcloseOutput;
        LogUserCancel; CloseDevice; FreeBuffer; FcloseOutput].
Proof.
  intros Hd Hsig Hrun. unfold main_from_loop in Hrun.
  destruct (main_loop E buffer fuel c s) as [c1 s1 | c1 s1 | f c1] eqn:Hloop;
    try discriminate.
  inversion Hrun; subst c' s'. clear Hrun.
  destruct (main_loop_left buffer fuel c s c1 s1 Hsig Hloop)
    as (Hs1 & Hnz & evs & Hev & Hone & _).
  rewrite (epilogue_spec c1 Hs1 Hnz), Hev.
  destruct (Hone Hd) as [-> | ->].
  - left. rewrite app_nil_r. reflexivity.
  - right. rewrite <- app_assoc. reflexivity.
Qed.

Lemma reader_gone_closes_output_twice_witness :
  let E := small_env 0 in
  let c := mkControl 0 [None; None; Some SIGPIPE] [] in
  exists c' s',
    (gflags_detach E = 0 /\ real_signals c /\
     main_from_loop E [42] 3 c (init E) = Some (c', s')) /\
    events c' = [LogReaderGone; FcloseOutput;
                 LogUserCancel; CloseDevice; FreeBuffer; FcloseOutput].
Proof.
  intros E c. eexists. eexists.
  assert (Hd : gflags_detach E = 0) by reflexivity.
  assert (Hsig : real_signals c).
  { repeat constructor; discriminate. }
  assert (Hrun : main_from_loop E [42] 3 c (init E) = Some (_, _))
    by (vm_compute; reflexivity).
  split; [split; [exact Hd | split; [exact Hsig | exact Hrun]] |].
  destruct (reader_gone_closes_output_twice E [42] 3 c _ (init E) _ Hd Hsig Hrun)
    as [Hev | Hev]; reflexivity.
Defined.

(** X11: nothing in the loop clears [do_exit].  Detached, once [SIGPIPE]
    has been seen and no other signal arrives, the loop is never left, and
    every later pass closes the output and reopens the FIFO again before it
    processes the batch: after [fuel] passes that many close-and-reopen
    rounds have been made. *)
Theorem sigpipe_is_never_cleared (E : Env) (buffer : list Z) (fuel : nat) :
  forall (c : control) (s : state E),
    gflags_detach E <> 0 ->
    do_exit c = SIGPIPE -> signals c = [] ->
    match main_loop E buffer fuel c s with
    | Running c' s' =>
        do_exit c' = SIGPIPE /\
        events c' = events c
          ++ concat (replicate fuel
                       [LogReaderGone; FcloseOutput; LogWaiting; FopenFifo])
    | LeftLoop _ _ => False
    | Faulted _ _ => True
    end.
Proof.
  induction fuel as [| fuel IH]; intros c s Hd Hpipe Hnil; cbn [main_loop].
  - cbn [replicate concat]. rewrite app_nil_r. auto.
  - destruct c as [d sg ev]. cbn [do_exit signals events] in *. subst d sg.
    unfold loop_test, loop_head, read_do_exit.
    cbn [signals do_exit events fst snd].
    change (SIGPIPE =? 0) with false. change (SIGPIPE =? SIGPIPE) with true.
    cbn beta iota zeta. cbn [signals do_exit events fst snd].
    change (SIGPIPE =? SIGPIPE) with true. cbn beta iota zeta.
    destruct (Z.eqb_spec (gflags_detach E) 0) as [H0 | _]; [contradiction |].
    cbn [negb]. cbn beta iota zeta.
    destruct (process_samples buffer s) as [s1 | f]; [| exact I].
    match goal with
    | |- context [main_loop E buffer fuel ?c1 s1] =>
        specialize (IH c1 s1 Hd eq_refl eq_refl);
        destruct (main_loop E buffer fuel c1 s1) as [c' s' | c' s' | f c'];
        [| exact IH | exact I]
    end.
    destruct IH as (Hp & Hev). split; [exact Hp |].
    rewrite Hev. unfold emit. cbn [events replicate concat].
    rewrite <- !app_assoc. reflexivity.
Qed.

Lemma sigpipe_is_never_cleared_witness :
  let E := demo_env 2 always_pass 0 1 in
  let c := mkControl SIGPIPE [] [] in
  (gflags_detach E <> 0 /\ do_exit c = SIGPIPE /\ signals c = []) /\
  match main_loop E [42] 2 c (init E) with
  | Running c' s' =>
      do_exit c' = SIGPIPE /\
      events c' = events c
        ++ concat (replicate 2
                     [LogReaderGone; FcloseOutput; LogWaiting; FopenFifo])
  | LeftLoop _ _ => False
  | Faulted _ _ => True
  end.
Proof.
  intros E c.
  assert (Hd : gflags_detach E <> 0) by (vm_compute; intro H; discriminate H).
  assert (Hp : do_exit c = SIGPIPE) by reflexivity.
  assert (Hn : signals c = []) by reflexivity.
  split; [split; [exact Hd | split; [exact Hp | exact Hn]] |].
  exact (sigpipe_is_never_cleared E [42] 2 c (init E) Hd Hp Hn).
Defined.

(** ** Start-up *)

Section CliSteps.
Variable S : Cli.Sys.

(** What one option does to each global, when it does not end the
    process. *)
Lemma option_step_fields (opt : Z) (a : Cli.arg S) (g g1 : Cli.globals S) :
  Cli.option_step S opt a g = Cli.GoesOn g1 ->
  Cli.gain g1
    = (if opt =? Cli.opt_a then Cli.float_of_int (Cli.gain_of S a)
       else Cli.gain g) /\
  Cli.gflags_detach g1
    = (if opt =? Cli.opt_b then 1 else Cli.gflags_detach g) /\
  Cli.gflags_encryption g1
    = (if opt =? Cli.opt_e then 1 else Cli.gflags_encryption g) /\
  Cli.frequency g1
    = (if opt =? Cli.opt_f then Cli.atofs S a else Cli.frequency g) /\
  Cli.samp_rate g1
    = (if opt =? Cli.opt_s then Cli.atofs S a else Cli.samp_rate g) /\
  Cli.redirect_output g1
    = (if opt =? Cli.opt_o then 1 else Cli.redirect_output g) /\
  Cli.output g1
    = (if opt =? Cli.opt_o then Cli.Opened a else Cli.output g) /\
  Cli.pidfile_path g1
    = (if opt =? Cli.opt_p then Some a else Cli.pidfile_path g) /\
  Cli.trace g1
    = Cli.trace g
      ++ (if opt =? Cli.opt_o then [Cli.Fopen a; Cli.FcloseStdout] else []).
Proof.
  unfold Cli.option_step. intros Hstep.
  repeat match type of Hstep with
         | context [if (opt =? ?c) then _ else _] =>
             destruct (Z.eqb_spec opt c) as [-> | ?]
         end;
    try discriminate Hstep;
    try (destruct (Cli.fopen_w S a); [| discriminate Hstep]);
    inversion Hstep; subst g1; cbn;
    repeat match goal with
           | |- context [if (opt =? ?c) then _ else _] =>
               destruct (Z.eqb_spec opt c); [congruence |]
           end;
    rewrite ?app_nil_r; repeat split; reflexivity.
Qed.

(** [usage] is reached by [-h] and by every character without a [case]. *)
Lemma option_step_exits (opt : Z) (a : Cli.arg S) (g : Cli.globals S) :
  Cli.known opt = false ->
  Cli.option_step S opt a g = Cli.Exits Cli.EXIT_SUCCESS.
Proof.
  unfold Cli.known. cbn [existsb]. intros Hk.
  repeat (apply orb_false_elim in Hk as [?H Hk]).
  unfold Cli.option_step.
  repeat match goal with
         | H : (opt =? ?c) = false |- _ => rewrite H; clear H
         end.
  destruct (opt =? Cli.opt_h); reflexivity.
Qed.

Lemma option_step_known (opt : Z) (a : Cli.arg S) (g : Cli.globals S) :
  Cli.known opt = true ->
  (exists g1, Cli.option_step S opt a g = Cli.GoesOn g1) \/
  (opt = Cli.opt_o /\ Cli.fopen_w S a = false /\
   Cli.option_step S opt a g = Cli.Suicide).
Proof.
  unfold Cli.known. cbn [existsb]. intros Hk.
  unfold Cli.option_step.
  repeat match goal with
         | |- context [if (opt =? ?c) then _ else _] =>
             destruct (Z.eqb_spec opt c) as [-> | ?]
         end; eauto;
    try (destruct (Cli.fopen_w S a); eauto);
    exfalso;
    repeat match goal with
           | H : opt <> _ |- _ => apply Z.eqb_neq in H; rewrite H in Hk
           end; discriminate Hk.
Qed.

(** An [int] below [2 ^ 24] in absolute value is kept as it is by the
    conversion to [float]. *)
Lemma float_of_int_exact (n : Z) :
  Z.abs n < 2 ^ 24 -> Cli.float_of_int n = n.
Proof.
  intros Hn. unfold Cli.float_of_int.
  destruct (Z.leb_spec (Z.log2 (Z.abs n) - 23) 0) as [_ | He]; [reflexivity |].
  exfalso.
  destruct (Z.eq_dec (Z.abs n) 0) as [H0 | H0].
  - rewrite H0 in He. cbn in He. lia.
  - assert (Z.log2 (Z.abs n) < 24) by (apply Z.log2_lt_pow2; lia). lia.
Qed.

(** A [-o] whose file does not open ends in [suicide]. *)
Lemma option_step_unopened (a : Cli.arg S) (g : Cli.globals S) :
  Cli.fopen_w S a = false ->
  Cli.option_step S Cli.opt_o a g = Cli.Suicide.
Proof.
  intros Hf. unfold Cli.option_step. cbn [Z.eqb Cli.opt_o Cli.opt_a Cli.opt_b
    Cli.opt_d Cli.opt_e Cli.opt_f Cli.opt_g Cli.opt_h Pos.eqb].
  rewrite Hf. reflexivity.
Qed.

End CliSteps.

Section CliRuns.
Variable S : Cli.Sys.

Lemma parse_args_app (l1 l2 : list (Z * Cli.arg S)) : forall g,
  Cli.parse_args S (l1 ++ l2) g =
    match Cli.parse_args S l1 g with
    | Cli.GoesOn g' => Cli.parse_args S l2 g'
    | Cli.Exits status => Cli.Exits status
    | Cli.Suicide => Cli.Suicide
    end.
Proof.
  induction l1 as [| [opt a] l1 IH]; intros g; cbn [app Cli.parse_args].
  - reflexivity.
  - destruct (Cli.option_step S opt a g); auto.
Qed.

Lemma parse_args_exits (opts : list (Z * Cli.arg S)) : forall g status,
  Cli.parse_args S opts g = Cli.Exits status ->
  status = Cli.EXIT_SUCCESS /\
  exists pre opt a post g',
    opts = pre ++ (opt, a) :: post /\ Cli.known opt = false /\
    Cli.parse_args S pre g = Cli.GoesOn g'.
Proof.
  induction opts as [| [opt a] opts IH]; intros g status Hrun;
    cbn [Cli.parse_args] in Hrun; [discriminate |].
  destruct (Cli.known opt) eqn:Hk.
  - destruct (option_step_known S opt a g Hk) as [(g1 & Hs) | (_ & _ & Hs)];
      rewrite Hs in Hrun; [| discriminate].
    destruct (IH g1 status Hrun) as (Hst & pre & o & x & post & g' & -> & Hko & Hpre).
    split; [exact Hst |].
    exists ((opt, a) :: pre), o, x, post, g'.
    split; [reflexivity |]. split; [exact Hko |].
    cbn [Cli.parse_args]. rewrite Hs. exact Hpre.
  - rewrite (option_step_exits S opt a g Hk) in Hrun.
    inversion Hrun. split; [reflexivity |].
    exists [], opt, a, opts, g. auto.
Qed.

Lemma parse_args_suicide (opts : list (Z * Cli.arg S)) : forall g,
  Cli.parse_args S opts g = Cli.Suicide ->
  exists pre a post g',
    opts = pre ++ (Cli.opt_o, a) :: post /\ Cli.fopen_w S a = false /\
    Cli.parse_args S pre g = Cli.GoesOn g'.
Proof.
  induction opts as [| [opt a] opts IH]; intros g Hrun;
    cbn [Cli.parse_args] in Hrun; [discriminate |].
  destruct (Cli.known opt) eqn:Hk.
  - destruct (option_step_known S opt a g Hk) as [(g1 & Hs) | (-> & Hf & Hs)].
    + rewrite Hs in Hrun.
      destruct (IH g1 Hrun) as (pre & x & post & g' & -> & Hf & Hpre).
      exists ((opt, a) :: pre), x, post, g'.
      split; [reflexivity |]. split; [exact Hf |].
      cbn [Cli.parse_args]. rewrite Hs. exact Hpre.
    + exists [], a, opts, g. auto.
  - rewrite (option_step_exits S opt a g Hk) in Hrun. discriminate.
Qed.

(** Each global after a run that returns: set by the last option that
    writes it, untouched when there is none. *)
Lemma parse_args_last (opts : list (Z * Cli.arg S)) : forall g g',
  Cli.parse_args S opts g = Cli.GoesOn g' ->
  Cli.gain g'
    = match Cli.last_arg Cli.opt_a opts with
      | Some a => Cli.float_of_int (Cli.gain_of S a)
      | None => Cli.gain g end /\
  Cli.gflags_detach g'
    = match Cli.last_arg Cli.opt_b opts with
      | Some _ => 1 | None => Cli.gflags_detach g end /\
  Cli.gflags_encryption g'
    = match Cli.last_arg Cli.opt_e opts with
      | Some _ => 1 | None => Cli.gflags_encryption g end /\
  Cli.frequency g'
    = match Cli.last_arg Cli.opt_f opts with
      | Some a => Cli.atofs S a | None => Cli.frequency g end /\
  Cli.samp_rate g'
    = match Cli.last_arg Cli.opt_s opts with
      | Some a => Cli.atofs S a | None => Cli.samp_rate g end /\
  Cli.redirect_output g'
    = match Cli.last_arg Cli.opt_o opts with
      | Some _ => 1 | None => Cli.redirect_output g end /\
  Cli.output g'
    = match Cli.last_arg Cli.opt_o opts with
      | Some a => Cli.Opened a | None => Cli.output g end /\
  Cli.pidfile_path g'
    = match Cli.last_arg Cli.opt_p opts with
      | Some a => Some a | None => Cli.pidfile_path g end.
Proof.
  induction opts as [| [opt a] opts IH]; intros g g' Hrun;
    cbn [Cli.parse_args Cli.last_arg] in *.
  - inversion Hrun; subst. repeat split; reflexivity.
  - destruct (Cli.option_step S opt a g) as [g1 | st |] eqn:Hs; try discriminate.
    destruct (option_step_fields S opt a g g1 Hs)
      as (F1 & F2 & F3 & F4 & F5 & F6 & F7 & F8 & _).
    destruct (IH g1 g' Hrun) as (H1 & H2 & H3 & H4 & H5 & H6 & H7 & H8).
    rewrite H1, H2, H3, H4, H5, H6, H7, H8, F1, F2, F3, F4, F5, F6, F7, F8.
    repeat split;
      match goal with
      | |- context [Cli.last_arg ?c opts] =>
          destruct (Cli.last_arg c opts); [reflexivity |];
          destruct (opt =? c); reflexivity
      end.
Qed.

(** The calls on [stdout] and on files made by a run that returns: an
    [fopen] and an [fclose(stdout)] for every [-o], nothing else. *)
Lemma parse_args_trace (opts : list (Z * Cli.arg S)) : forall g g',
  Cli.parse_args S opts g = Cli.GoesOn g' ->
  Cli.trace g'
    = Cli.trace g
      ++ flat_map
           (fun o => if fst o =? Cli.opt_o
                     then [Cli.Fopen (snd o); Cli.FcloseStdout] else [])
           opts.
Proof.
  induction opts as [| [opt a] opts IH]; intros g g' Hrun;
    cbn [Cli.parse_args flat_map fst snd] in *.
  - inversion Hrun; subst. rewrite app_nil_r. reflexivity.
  - destruct (Cli.option_step S opt a g) as [g1 | st |] eqn:Hs; try discriminate.
    destruct (option_step_fields S opt a g g1 Hs)
      as (_ & _ & _ & _ & _ & _ & _ & _ & F9).
    rewrite (IH g1 g' Hrun), F9, <- app_assoc. reflexivity.
Qed.

End CliRuns.

(** X12: [parse_args] ends the process in two ways only.  It exits
    through [usage] exactly when, after options that were all processed,
    [getopt] returns [-h] or a character that has no [case] (an option it
    does not know included), and the status is then [EXIT_SUCCESS]: a bad
    command line is not reported as a failure.  It ends in [suicide]
    exactly when, after options that were all processed, the file of a
    [-o] cannot be opened.  In both cases the options after that one are
    never looked at. *)
Theorem parse_args_ends_by_usage_or_suicide (S : Cli.Sys)
    (opts : list (Z * Cli.arg S)) (g : Cli.globals S) :
  (forall status,
     Cli.parse_args S opts g = Cli.Exits status <->
     status = 0 /\
     exists pre opt a post g',
       opts = pre ++ (opt, a) :: post /\ Cli.known opt = false /\
       Cli.parse_args S pre g = Cli.GoesOn g') /\
  (Cli.parse_args S opts g = Cli.Suicide <->
   exists pre a post g',
     opts = pre ++ (Cli.opt_o, a) :: post /\ Cli.fopen_w S a = false /\
     Cli.parse_args S pre g = Cli.GoesOn g').
Proof.
  split; [intros status |]; split.
  - apply parse_args_exits.
  - intros (-> & pre & opt & a & post & g' & -> & Hk & Hpre).
    rewrite parse_args_app, Hpre. cbn [Cli.parse_args].
    rewrite (option_step_exits S opt a g' Hk). reflexivity.
  - apply parse_args_suicide.
  - intros (pre & a & post & g' & -> & Hf & Hpre).
    rewrite parse_args_app, Hpre. cbn [Cli.parse_args].
    rewrite (option_step_unopened S a g' Hf). reflexivity.
Qed.

(** X13: [-d] is accepted and ignored: removing every [-d] from the
    options changes nothing in what [parse_args] does. *)
Theorem device_option_is_ignored (S : Cli.Sys) (opts : list (Z * Cli.arg S))
    (g : Cli.globals S) :
  Cli.parse_args S (List.filter (fun o => negb (fst o =? Cli.opt_d)) opts) g
    = Cli.parse_args S opts g.
Proof.
  revert g. induction opts as [| [opt a] opts IH]; intros g;
    cbn [List.filter fst Cli.parse_args]; [reflexivity |].
  destruct (Z.eqb_spec opt Cli.opt_d) as [-> | Hne]; cbn [negb].
  - change (Cli.option_step S Cli.opt_d a g) with (Cli.GoesOn g). apply IH.
  - cbn [Cli.parse_args].
    destruct (Cli.option_step S opt a g); [apply IH | reflexivity | reflexivity].
Qed.

(** X14: options are applied in order and the last one wins.  After a run
    of [parse_args] that returns, the gain, the frequency, the sample rate,
    the PID file path and the output stream are those of the last [-a],
    [-f], [-s], [-p] and [-o] (unchanged when the option is absent), the
    gain being the [int] of the last [-a] rounded to a [float]; and
    [gflags_detach], [gflags_encryption] and [redirect_output] are 1 when
    [-b], [-e], [-o] occur and unchanged otherwise: no option clears
    them. *)
Theorem last_option_wins (S : Cli.Sys) (opts : list (Z * Cli.arg S))
    (g g' : Cli.globals S) :
  Cli.parse_args S opts g = Cli.GoesOn g' ->
  Cli.gain g'
    = match Cli.last_arg Cli.opt_a opts with
      | Some a => Cli.float_of_int (Cli.gain_of S a)
      | None => Cli.gain g end /\
  Cli.gflags_detach g'
    = match Cli.last_arg Cli.opt_b opts with
      | Some _ => 1 | None => Cli.gflags_detach g end /\
  Cli.gflags_encryption g'
    = match Cli.last_arg Cli.opt_e opts with
      | Some _ => 1 | None => Cli.gflags_encryption g end /\
  Cli.frequency g'
    = match Cli.last_arg Cli.opt_f opts with
      | Some a => Cli.atofs S a | None => Cli.frequency g end /\
  Cli.samp_rate g'
    = match Cli.last_arg Cli.opt_s opts with
      | Some a => Cli.atofs S a | None => Cli.samp_rate g end /\
  Cli.redirect_output g'
    = match Cli.last_arg Cli.opt_o opts with
      | Some _ => 1 | None => Cli.redirect_output g end /\
  Cli.output g'
    = match Cli.last_arg Cli.opt_o opts with
      | Some a => Cli.Opened a | None => Cli.output g end /\
  Cli.pidfile_path g'
    = match Cli.last_arg Cli.opt_p opts with
      | Some a => Some a | None => Cli.pidfile_path g end.
Proof. apply parse_args_last. Qed.

Lemma last_option_wins_witness :
  let opts : list (Z * Cli.arg demo_sys) :=
    [(Cli.opt_a, 7); (Cli.opt_f, 5); (Cli.opt_e, 0); (Cli.opt_d, 3);
     (Cli.opt_a, 167772170); (Cli.opt_f, 9)] in
  exists g',
    Cli.parse_args demo_sys opts demo_globals = Cli.GoesOn g' /\
    Cli.gain g' = 167772176 /\
    Cli.frequency g' = 9 /\ Cli.gflags_encryption g' = 1.
Proof.
  intros opts. eexists.
  assert (Hrun : Cli.parse_args demo_sys opts demo_globals = Cli.GoesOn _)
    by (vm_compute; reflexivity).
  split; [exact Hrun |].
  destruct (last_option_wins demo_sys opts demo_globals _ Hrun)
    as (Hg & _ & He & Hf & _).
  split; [exact Hg |]. split; [exact Hf | exact He].
Defined.

(** X15: where the output goes after start-up, and what was opened and
    closed on the way.  Starting with [redirect_output = 0], when lines
    271-284 run through: with a [-o] the output is the file of the last
    [-o], and no FIFO is made or opened even with [-b]; without [-o] it is
    the FIFO [DEFAULT_OUT_FILE] when [-b] was given and [stdout]
    otherwise.  [stdout] is closed once for every [-o] and once more when
    the FIFO is opened, and every file named by a [-o] is opened, the
    earlier ones never being closed. *)
Theorem startup_selects_output (S : Cli.Sys) (opts : list (Z * Cli.arg S))
    (g g' : Cli.globals S) :
  Cli.redirect_output g = 0 ->
  Cli.startup S opts g = Cli.GoesOn g' ->
  let detached := negb (Cli.gflags_detach g' =? 0) in
  Cli.output g' =
    match Cli.last_arg Cli.opt_o opts with
    | Some p => Cli.Opened p
    | None => if detached then Cli.Opened (Cli.DEFAULT_OUT_FILE S)
              else Cli.Stdout
    end /\
  Cli.trace g' =
    Cli.trace g
      ++ flat_map
           (fun o => if fst o =? Cli.opt_o
                     then [Cli.Fopen (snd o); Cli.FcloseStdout] else [])
           opts
      ++ (if detached then [Cli.Daemonize] else [])
      ++ [Cli.LogOptionsParsed]
      ++ match Cli.last_arg Cli.opt_o opts with
         | Some _ => []
         | None =>
             if detached
             then [Cli.Mkfifo]
                    ++ (if Cli.mkfifo_fails S && negb (Cli.errno_is_EEXIST S)
                        then [Cli.PerrorBadFifo] else [])
                    ++ [Cli.LogWaitingForReader;
                        Cli.Fopen (Cli.DEFAULT_OUT_FILE S);
                        Cli.FcloseStdout]
             else []
         end.
Proof.
  intros Hred Hrun. unfold Cli.startup in Hrun.
  destruct (Cli.parse_args S opts g) as [g1 | st |] eqn:Hparse; try discriminate.
  destruct (parse_args_last S opts g g1 Hparse)
    as (_ & _ & _ & _ & _ & Hr1 & Ho1 & _).
  pose proof (parse_args_trace S opts g g1 Hparse) as Ht1.
  rewrite Hred in Hr1. clear Hparse Hred.
  destruct g1 as [ga de en fr sr ui gi re ou pp tr].
  cbn [Cli.redirect_output Cli.output Cli.trace] in Hr1, Ho1, Ht1.
  revert Hrun.
  assert (Hfifo : Cli.route_output S = Cli.route_output S) by reflexivity.
  unfold Cli.route_output at 1 in Hfifo. revert Hfifo.
  generalize (Cli.route_output S) as route.
  destruct (Cli.fopen_w S (Cli.DEFAULT_OUT_FILE S)),
    (Cli.mkfifo_fails S), (Cli.errno_is_EEXIST S);
    intros route Hfifo; subst route; destruct de as [| d | d];
    destruct (Cli.last_arg Cli.opt_o opts) as [p |]; subst re ou;
    cbv beta iota zeta
      delta [Cli.log negb andb Z.eqb Cli.redirect_output Cli.gflags_detach
             Cli.gain Cli.gflags_encryption Cli.frequency Cli.samp_rate
             Cli.uid Cli.gid Cli.output Cli.pidfile_path Cli.trace];
    intros Hrun; try discriminate Hrun;
    injection Hrun as <-; subst tr;
    cbv beta iota zeta
      delta [negb andb Z.eqb Cli.gflags_detach Cli.output Cli.trace];
    rewrite <- ?app_assoc; cbn [app]; split; reflexivity.
Qed.

Lemma startup_selects_output_witness :
  let opts : list (Z * Cli.arg demo_sys) :=
    [(Cli.opt_o, 3); (Cli.opt_b, 0); (Cli.opt_o, 4)] in
  exists g',
    (Cli.redirect_output demo_globals = 0 /\
     Cli.startup demo_sys opts demo_globals = Cli.GoesOn g') /\
    Cli.output g' = @Cli.Opened demo_sys 4 /\
    Cli.trace g' =
      [@Cli.Fopen demo_sys 3; Cli.FcloseStdout; @Cli.Fopen demo_sys 4;
       Cli.FcloseStdout; Cli.Daemonize; Cli.LogOptionsParsed].
Proof.
  intros opts. eexists.
  assert (Hred : Cli.redirect_output demo_globals = 0) by reflexivity.
  assert (Hrun : Cli.startup demo_sys opts demo_globals = Cli.GoesOn _)
    by (vm_compute; reflexivity).
  split; [split; [exact Hred | exact Hrun] |].
  destruct (startup_selects_output demo_sys opts demo_globals _ Hred Hrun)
    as (Hout & Htr).
  split; [exact Hout | exact Htr].
Defined.
